(** * Profile completion screen: the submit flow of
      [src/app/ProfileCompletionScreen.tsx]

    The screen is a React component whose only logic is the orchestration in
    [handleSubmit] and [compressImage]: calls to the image manipulator, the
    clock, [fetch], the storage client, the record client, the router and the
    component's own state setters.  The embedding keeps that shape:

    - JavaScript strings are lists of UTF-16 code units;
    - a handler is a finite tree of calls ([Prog]), built with the monadic
      bind and with [try_catch] / [finally] for the source's
      [try]/[catch]/[finally];
    - the collaborators are an arbitrary environment ([Env]) that answers
      each call, possibly with a rejection;
    - running a program against an environment yields the final component
      state and the trace of calls with their answers;
    - the rendered screen is a machine that takes one input at a time (a
      press, a keystroke, the settlement of an awaited call), each handler
      running up to its next [await].

    The screen's other handlers ([checkSession], [loadProfileData],
    [handleImagePicker]) and the sign-in screen of
    [src/screens/AuthScreen.tsx] follow, over a tree that is generic in
    the collaborators' signature. *)

From Stdlib Require Import ZArith NArith QArith List String Ascii Bool Lia.
From Stdlib Require Import DecimalString.
Import ListNotations.

Set Implicit Arguments.
Local Open Scope Z_scope.
Local Open Scope list_scope.

(** ** JavaScript strings *)

Module Js.

(** A string is its sequence of UTF-16 code units. *)
Definition jsstring := list N.

(** A source literal; every literal of the screen is ASCII. *)
Definition lit (s : string) : jsstring :=
  List.map N_of_ascii (list_ascii_of_string s).

(** ECMAScript WhiteSpace and LineTerminator code points, the characters
    that [String.prototype.trim] strips. *)
Definition isWhiteSpace (c : N) : bool :=
  (N.eqb c 9 || N.eqb c 10 || N.eqb c 11 || N.eqb c 12 || N.eqb c 13
   || N.eqb c 32 || N.eqb c 160 || N.eqb c 5760
   || (N.leb 8192 c && N.leb c 8202)
   || N.eqb c 8232 || N.eqb c 8233 || N.eqb c 8239 || N.eqb c 8287
   || N.eqb c 12288 || N.eqb c 65279)%bool.

Fixpoint trimStart (s : jsstring) : jsstring :=
  match s with
  | [] => []
  | c :: r => if isWhiteSpace c then trimStart r else s
  end.

Definition trimEnd (s : jsstring) : jsstring := rev (trimStart (rev s)).

Definition trim (s : jsstring) : jsstring := trimEnd (trimStart s).

(** Truthiness of a string: only the empty string is falsy. *)
Definition truthy (s : jsstring) : bool :=
  match s with [] => false | _ :: _ => true end.

(** Truthiness of a [string | null]. *)
Definition truthyOpt (s : option jsstring) : bool :=
  match s with None => false | Some v => truthy v end.

(** Number-to-string conversion of an integral number, as a template
    literal performs it on [Date.now()]: plain decimal digits, with a
    leading minus sign below zero. *)
Definition numberToString (n : Z) : jsstring :=
  lit (NilZero.string_of_int (Z.to_int n)).

(** A thrown value: whether it is an instance of [Error], and its
    [message]. *)
Record Thrown := { instanceofError : bool; message : jsstring }.

(** [new Error(msg)] *)
Definition newError (msg : jsstring) : Thrown :=
  {| instanceofError := true; message := msg |}.

(** The settlement of a promise, or the completion of a call that may
    throw. *)
Inductive Outcome (A : Type) : Type :=
| Resolved (a : A)
| Rejected (e : Thrown).
Arguments Resolved {A} a.
Arguments Rejected {A} e.

End Js.
Import Js.

(** ** Data of the screen and of its collaborators *)

Record User := { id : jsstring }.
Record Session := { user : User }.

(** [interface ImageData] *)
Record Metadata := {
  width : Z;
  height : Z;
  format : jsstring;
  size : Z
}.

Record ImageData := {
  url : jsstring;
  thumbnail_url : jsstring;
  metadata : Metadata
}.

(** The component's [useState] cells. *)
Record State := {
  session : option Session;
  bio : jsstring;
  links : jsstring;
  avatar : option jsstring;
  loading : bool;
  error : option jsstring
}.

(** expo-image-manipulator *)
Inductive SaveFormat := JPEG | PNG | WEBP.
Inductive Action := Resize (target_width : Z).
(** [compress] holds the decimal literal of the source as an exact
    rational; the screen only passes it on. *)
Record SaveOptions := { compress : Q; save_format : SaveFormat }.
Record ImageResult := { ir_uri : jsstring; ir_width : Z; ir_height : Z }.

(** [fetch]: a response handle and the blob read from it. *)
Record Response := { response_id : N }.
Record Blob := { blob_id : N; blob_size : Z }.

(** storage-js: an upload resolves to [{ data, error }], [error] being a
    [StorageError] (a subclass of [Error]) or [null]. *)
Record StorageError := { se_message : jsstring }.
Record UploadResult := { upload_error : option StorageError }.
Record UploadPromise := { promise_id : N }.

Definition thrownStorageError (e : StorageError) : Thrown :=
  newError (se_message e).

(** postgrest-js: an update resolves to [{ error }]; the error object
    carries a [message], and whether it is an [Error] instance depends on
    the client's version, so it is kept as a general thrown value. *)
Record UpdateResult := { update_error : option Thrown }.

(** The object passed to [.update(...)]. *)
Record ProfileUpdate := {
  upd_bio : jsstring;
  upd_avatar : option ImageData;
  upd_links : jsstring
}.

(** The two derived variants returned by [compressImage]. *)
Record Compressed := { main : ImageResult; thumbnail : ImageResult }.

(** ** Calls and programs *)

(** Every call the screen makes outside its own arithmetic, indexed by the
    type of its answer.  [StorageRemove] is the storage client's delete
    operation; the screen never issues it, and it is listed so that traces
    can say so. *)
Inductive Call : Type -> Type :=
| RouterReplace (path : jsstring) : Call unit
| RouterPush (path : jsstring) : Call unit
| SetLoading (b : bool) : Call unit
| SetError (e : option jsstring) : Call unit
| ManipulateAsync (uri : jsstring) (actions : list Action)
    (opts : SaveOptions) : Call (Outcome ImageResult)
| DateNow : Call Z
| Fetch (uri : jsstring) : Call (Outcome Response)
| ResponseBlob (r : Response) : Call (Outcome Blob)
| StorageUpload (bucket key : jsstring) (body : Blob) : Call UploadPromise
| PromiseAll (p q : UploadPromise)
    : Call (Outcome (UploadResult * UploadResult))
| StorageGetPublicUrl (bucket key : jsstring) : Call (Outcome jsstring)
| StorageRemove (bucket : jsstring) (keys : list jsstring)
    : Call (Outcome unit)
| TableUpdate (table : jsstring) (values : ProfileUpdate)
    (eq_id : jsstring) : Call (Outcome UpdateResult).

(** The calls whose answer is awaited: the handler suspends there. *)
Definition isAwaited {X} (c : Call X) : bool :=
  match c with
  | ManipulateAsync _ _ _ | Fetch _ | ResponseBlob _ | PromiseAll _ _
  | StorageRemove _ _ | TableUpdate _ _ _ => true
  | _ => false
  end.

Inductive Prog (A : Type) : Type :=
| Ret (a : A)
| Throw (e : Thrown)
| Vis (X : Type) (c : Call X) (k : X -> Prog A).
Arguments Ret {A} a.
Arguments Throw {A} e.
Arguments Vis {A X} c k.

Fixpoint bind {A B} (p : Prog A) (f : A -> Prog B) : Prog B :=
  match p with
  | Ret a => f a
  | Throw e => Throw e
  | Vis c k => Vis c (fun x => bind (k x) f)
  end.

(** [try { p } catch (err) { h err }] *)
Fixpoint try_catch {A} (p : Prog A) (h : Thrown -> Prog A) : Prog A :=
  match p with
  | Ret a => Ret a
  | Throw e => h e
  | Vis c k => Vis c (fun x => try_catch (k x) h)
  end.

(** [try { p } finally { f }]: [f] runs on either exit and the exit of
    [p] is kept (the source's [finally] block neither returns nor throws
    of its own accord; if it did throw, that would win). *)
Fixpoint finally {A} (p : Prog A) (f : Prog unit) : Prog A :=
  match p with
  | Ret a => bind f (fun _ => Ret a)
  | Throw e => bind f (fun _ => Throw e)
  | Vis c k => Vis c (fun x => finally (k x) f)
  end.

Definition call {X} (c : Call X) : Prog X := Vis c (fun x => Ret x).

(** A call that may throw or whose promise may reject. *)
Definition await {X} (c : Call (Outcome X)) : Prog X :=
  Vis c (fun o => match o with
                  | Resolved x => Ret x
                  | Rejected e => Throw e
                  end).

Declare Scope prog_scope.
Delimit Scope prog_scope with prog.
Notation "x <- p ;; q" := (bind p (fun x => q))
  (at level 61, p at next level, right associativity) : prog_scope.
Notation "p ;; q" := (bind p (fun _ => q))
  (at level 61, right associativity) : prog_scope.
Local Open Scope prog_scope.

(** ** The screen's functions *)

(** [compressImage], lines 96-125. *)
Definition compressImage (uri : jsstring) : Prog Compressed :=
  try_catch
    (compressedImage <-
       await (ManipulateAsync uri [Resize 800]
                {| compress := 7 # 10; save_format := JPEG |}) ;;
     thumb <-
       await (ManipulateAsync uri [Resize 200]
                {| compress := 5 # 10; save_format := JPEG |}) ;;
     Ret {| main := compressedImage; thumbnail := thumb |})
    (fun _ => Throw (newError (lit "Failed to compress image"))).

(** The text the [catch] block of [handleSubmit] shows, line 214. *)
Definition errorText (err : Thrown) : jsstring :=
  if instanceofError err then message err else lit "An error occurred.".

(** Lines 160-199: the block guarded by [if (avatar)]. *)
Definition uploadAvatar (sess : Session) (a : jsstring) : Prog ImageData :=
  compressed <- compressImage a ;;
  now1 <- call DateNow ;;
  let mainFileName :=
    id (user sess) ++ lit "-" ++ numberToString now1 ++ lit ".jpg" in
  mainResponse <- await (Fetch (ir_uri (main compressed))) ;;
  mainBlob <- await (ResponseBlob mainResponse) ;;
  now2 <- call DateNow ;;
  let thumbFileName :=
    id (user sess) ++ lit "-" ++ numberToString now2 ++ lit "-thumb.jpg" in
  thumbResponse <- await (Fetch (ir_uri (thumbnail compressed))) ;;
  thumbBlob <- await (ResponseBlob thumbResponse) ;;
  p1 <- call (StorageUpload (lit "avatars") mainFileName mainBlob) ;;
  p2 <- call (StorageUpload (lit "avatars") thumbFileName thumbBlob) ;;
  both <- await (PromiseAll p1 p2) ;;
  let (mainUpload, thumbUpload) := (both : UploadResult * UploadResult) in
  match upload_error mainUpload with
  | Some e => Throw (thrownStorageError e)
  | None =>
    match upload_error thumbUpload with
    | Some e => Throw (thrownStorageError e)
    | None =>
      mainUrl <- await (StorageGetPublicUrl (lit "avatars") mainFileName) ;;
      thumbUrl <- await (StorageGetPublicUrl (lit "avatars") thumbFileName) ;;
      Ret {| url := mainUrl;
             thumbnail_url := thumbUrl;
             metadata := {| width := ir_width (main compressed);
                            height := ir_height (main compressed);
                            format := lit "jpeg";
                            size := blob_size mainBlob |} |}
    end
  end.

(** Lines 159-212: the body of the [try] block. *)
Definition submitBody (sess : Session) (s : State) : Prog unit :=
  avatarData <-
    match avatar s with
    | Some a =>
      if truthy a
      then (d <- uploadAvatar sess a ;; Ret (Some d))
      else Ret None
    | None => Ret None
    end ;;
  res <- await (TableUpdate (lit "users")
                  {| upd_bio := bio s;
                     upd_avatar := avatarData;
                     upd_links := links s |}
                  (id (user sess))) ;;
  match update_error res with
  | Some updateError => Throw updateError
  | None => call (RouterPush (lit "/dash"))
  end.

(** The validation test of line 153. *)
Definition missingField (s : State) : bool :=
  (negb (truthy (trim (bio s)))
   || negb (truthyOpt (avatar s))
   || negb (truthy (trim (links s))))%bool.

(** [handleSubmit], lines 144-218.  [s] is the state captured by the
    render whose button was pressed. *)
Definition handleSubmit (s : State) : Prog unit :=
  match session s with
  | None => call (RouterReplace (lit "/auth"))
  | Some sess =>
    call (SetLoading true) ;;
    call (SetError None) ;;
    if missingField s then
      call (SetError (Some (lit "All fields are required."))) ;;
      call (SetLoading false)
    else
      finally
        (try_catch (submitBody sess s)
           (fun err => call (SetError (Some (errorText err)))))
        (call (SetLoading false))
  end.

(** ** Running a handler against its collaborators *)

(** The collaborators: some world state and, for every call, an answer and
    the world after it.  The state setters and the router answer [tt]
    whatever the environment; everything else is the environment's choice,
    rejections included. *)
Record Env := {
  World : Type;
  respond : forall X, Call X -> World -> X * World
}.

(** One entry of a trace: a call and the answer it got. *)
Inductive Event : Type :=
| Ev (X : Type) (c : Call X) (x : X).
Arguments Ev {X} c x.

(** The effect of a call on the component's own state. *)
Definition applySet {X} (c : Call X) (s : State) : State :=
  match c with
  | SetLoading b =>
    {| session := session s; bio := bio s; links := links s;
       avatar := avatar s; loading := b; error := error s |}
  | SetError e =>
    {| session := session s; bio := bio s; links := links s;
       avatar := avatar s; loading := loading s; error := e |}
  | _ => s
  end.

Inductive Exit (A : Type) : Type :=
| Returned (a : A)
| Threw (e : Thrown).
Arguments Returned {A} a.
Arguments Threw {A} e.

Record Run (W A : Type) := {
  exit : Exit A;
  world : W;
  final : State;
  trace : list Event
}.

Section Running.

Variable E : Env.

Fixpoint run {A} (p : Prog A) (w : World E) (s : State) : Run (World E) A :=
  match p with
  | Ret a => {| exit := Returned a; world := w; final := s; trace := [] |}
  | Throw e => {| exit := Threw e; world := w; final := s; trace := [] |}
  | Vis c k =>
    let xw := respond E c w in
    let r := run (k (fst xw)) (snd xw) (applySet c s) in
    {| exit := exit r; world := world r; final := final r;
       trace := Ev c (fst xw) :: trace r |}
  end.

(** Pressing the button of a render that captured [s]: the whole of
    [handleSubmit], every awaited answer taken from the environment. *)
Definition submit (w : World E) (s : State) : Run (World E) unit :=
  run (handleSubmit s) w s.

End Running.

(** ** Reading traces *)

(** Record writes: table, values and the id of the [.eq('id', ...)]
    filter. *)
Definition isWrite (e : Event) : option (jsstring * ProfileUpdate * jsstring) :=
  match e with
  | Ev (TableUpdate t v i) _ => Some (t, v, i)
  | _ => None
  end.

(** Uploads issued: bucket, key and body. *)
Definition isUpload (e : Event) : option (jsstring * jsstring * Blob) :=
  match e with
  | Ev (StorageUpload b k body) _ => Some (b, k, body)
  | _ => None
  end.

(** The settlement of the joint wait on the two uploads. *)
Definition isJoin (e : Event)
  : option (Outcome (UploadResult * UploadResult)) :=
  match e with
  | Ev (PromiseAll _ _) o => Some o
  | _ => None
  end.

(** Image transformations requested, with their settlement. *)
Definition isTransform (e : Event)
  : option (jsstring * list Action * SaveOptions * Outcome ImageResult) :=
  match e with
  | Ev (ManipulateAsync u a o) r => Some (u, a, o, r)
  | _ => None
  end.

Definition isRemove (e : Event) : option (jsstring * list jsstring) :=
  match e with
  | Ev (StorageRemove b ks) _ => Some (b, ks)
  | _ => None
  end.

(** Messages put on screen: the non-null arguments of [setError]. *)
Definition isShown (e : Event) : option jsstring :=
  match e with
  | Ev (SetError (Some m)) _ => Some m
  | _ => None
  end.

Definition isClockRead (e : Event) : option Z :=
  match e with
  | Ev DateNow t => Some t
  | _ => None
  end.

Definition isResolution (e : Event)
  : option (jsstring * jsstring * Outcome jsstring) :=
  match e with
  | Ev (StorageGetPublicUrl b k) o => Some (b, k, o)
  | _ => None
  end.

(** Calls that leave the device: reading the derived files, storage and
    record operations. *)
Definition isNetwork (e : Event) : bool :=
  match e with
  | Ev (Fetch _) _ | Ev (ResponseBlob _) _ | Ev (StorageUpload _ _ _) _
  | Ev (PromiseAll _ _) _ | Ev (StorageGetPublicUrl _ _) _
  | Ev (StorageRemove _ _) _ | Ev (TableUpdate _ _ _) _ => true
  | _ => false
  end.

(** The settlement of a record write, and the value the handler throws on
    it (lines 201-210): the rejection, or the reported error. *)
Definition isWriteOutcome (e : Event) : option (Outcome UpdateResult) :=
  match e with
  | Ev (TableUpdate _ _ _) o => Some o
  | _ => None
  end.

Definition writeFailure (o : Outcome UpdateResult) : option Thrown :=
  match o with
  | Rejected e => Some e
  | Resolved res => update_error res
  end.

Fixpoint collect {B} (f : Event -> option B) (t : list Event) : list B :=
  match t with
  | [] => []
  | e :: r =>
    match f e with
    | Some b => b :: collect f r
    | None => collect f r
    end
  end.

Definition writes := collect isWrite.
Definition uploads := collect isUpload.
Definition joins := collect isJoin.
Definition transforms := collect isTransform.
Definition removals := collect isRemove.
Definition shown := collect isShown.
Definition clockReads := collect isClockRead.
Definition resolutions := collect isResolution.
Definition writeOutcomes := collect isWriteOutcome.
Definition network (t : list Event) : list Event := filter isNetwork t.

(** ** A scripted environment

    A concrete collaborator set used to run the screen on examples: the
    clock advances by [tick] at every read, transformations report the
    requested width, and the script says which calls fail. *)

Record Script := {
  clock : Z;
  tick : Z;
  transformFails : Z -> bool;
  joinOutcome : Outcome (UploadResult * UploadResult);
  updateOutcome : Outcome UpdateResult
}.

Definition tickClock (w : Script) : Script :=
  {| clock := clock w + tick w; tick := tick w;
     transformFails := transformFails w;
     joinOutcome := joinOutcome w; updateOutcome := updateOutcome w |}.

Definition targetWidth (acts : list Action) : Z :=
  match acts with
  | Resize w :: _ => w
  | [] => 0
  end.

Definition scriptedRespond (X : Type) (c : Call X) (w : Script) : X * Script :=
  match c in Call X return X * Script with
  | RouterReplace _ => (tt, w)
  | RouterPush _ => (tt, w)
  | SetLoading _ => (tt, w)
  | SetError _ => (tt, w)
  | ManipulateAsync u acts _ =>
    (if transformFails w (targetWidth acts)
     then Rejected {| instanceofError := true; message := lit "decode" |}
     else Resolved {| ir_uri := u ++ lit "#" ++ numberToString (targetWidth acts);
                      ir_width := targetWidth acts;
                      ir_height := targetWidth acts |}, w)
  | DateNow => (clock w, tickClock w)
  | Fetch u => (Resolved {| response_id := N.of_nat (List.length u) |}, w)
  | ResponseBlob r =>
    (Resolved {| blob_id := response_id r; blob_size := 1024 |}, w)
  | StorageUpload _ k _ => ({| promise_id := N.of_nat (List.length k) |}, w)
  | PromiseAll _ _ => (joinOutcome w, w)
  | StorageGetPublicUrl b k =>
    (Resolved (lit "https://cdn/" ++ b ++ lit "/" ++ k), w)
  | StorageRemove _ _ => (Resolved tt, w)
  | TableUpdate _ _ _ => (updateOutcome w, w)
  end.

Definition scripted : Env :=
  {| World := Script; respond := scriptedRespond |}.

Definition uploadOk : UploadResult := {| upload_error := None |}.
Definition uploadFailed (m : string) : UploadResult :=
  {| upload_error := Some {| se_message := lit m |} |}.

(** Everything succeeds; the clock starts at [t] and gains [dt] per read. *)
Definition allGood (t dt : Z) : Script :=
  {| clock := t; tick := dt;
     transformFails := fun _ => false;
     joinOutcome := Resolved (uploadOk, uploadOk);
     updateOutcome := Resolved {| update_error := None |} |}.

Definition u1 : Session := {| user := {| id := lit "u1" |} |}.

(** The scenario of the specification's test list. *)
Definition filled : State :=
  {| session := Some u1;
     bio := lit "Hello";
     links := lit "https://x.com";
     avatar := Some (lit "file:///pick.png");
     loading := false;
     error := None |}.

Definition padded : State :=
  {| session := Some u1;
     bio := lit "  Hello ";
     links := lit " https://x.com  ";
     avatar := Some (lit "file:///pick.png");
     loading := false;
     error := None |}.

Definition blankBio : State :=
  {| session := Some u1;
     bio := lit "   ";
     links := lit "https://x.com";
     avatar := Some (lit "file:///pick.png");
     loading := false;
     error := None |}.

(** The record the [padded] scenario writes when all goes well with the
    clock at 1690000000000 and one millisecond per read. *)
Definition paddedRecord : ProfileUpdate :=
  {| upd_bio := lit "  Hello ";
     upd_avatar :=
       Some {| url := lit "https://cdn/avatars/u1-1690000000000.jpg";
               thumbnail_url :=
                 lit "https://cdn/avatars/u1-1690000000001-thumb.jpg";
               metadata := {| width := 800; height := 800;
                              format := lit "jpeg"; size := 1024 |} |};
     upd_links := lit " https://x.com  " |}.

(** The thumbnail transformation fails. *)
Definition thumbUndecodable : Script :=
  {| clock := 1690000000000; tick := 1;
     transformFails := fun w => Z.eqb w 200;
     joinOutcome := Resolved (uploadOk, uploadOk);
     updateOutcome := Resolved {| update_error := None |} |}.

(** The thumbnail upload reports an error, the main one does not. *)
Definition thumbUploadFails : Script :=
  {| clock := 1690000000000; tick := 1;
     transformFails := fun _ => false;
     joinOutcome := Resolved (uploadOk, uploadFailed "quota exceeded");
     updateOutcome := Resolved {| update_error := None |} |}.

(** Both uploads succeed and the record write reports an error. *)
Definition writeFails : Script :=
  {| clock := 1690000000000; tick := 1;
     transformFails := fun _ => false;
     joinOutcome := Resolved (uploadOk, uploadOk);
     updateOutcome :=
       Resolved {| update_error :=
                     Some {| instanceofError := false;
                             message := lit "permission denied" |} |} |}.

(** ** Properties of program trees *)

(** Every call of the tree, on every path, satisfies [P]. *)
Inductive Always (P : forall X, Call X -> Prop) (A : Type)
  : Prog A -> Prop :=
| AlwaysRet (a : A) : Always P (Ret a)
| AlwaysThrow (e : Thrown) : Always P (Throw e)
| AlwaysVis (X : Type) (c : Call X) (k : X -> Prog A) :
    P X c -> (forall x, Always P (k x)) -> Always P (Vis c k).

Definition notRemove (X : Type) (c : Call X) : Prop :=
  match c with
  | StorageRemove _ _ => False
  | _ => True
  end.

Definition notSetLoading (X : Type) (c : Call X) : Prop :=
  match c with
  | SetLoading _ => False
  | _ => True
  end.

(** A record write carries the captured [bio] and [links] as they are. *)
Definition writesVerbatim (s : State) (X : Type) (c : Call X) : Prop :=
  match c with
  | TableUpdate _ v _ => upd_bio v = bio s /\ upd_links v = links s
  | _ => True
  end.

Definition eventCall (P : forall X, Call X -> Prop) (e : Event) : Prop :=
  match e with
  | Ev c _ => P _ c
  end.

(** The tree finishes without awaiting anything. *)
Inductive Quiet (A : Type) : Prog A -> Prop :=
| QuietRet (a : A) : Quiet (Ret a)
| QuietThrow (e : Thrown) : Quiet (Throw e)
| QuietVis (X : Type) (c : Call X) (k : X -> Prog A) :
    isAwaited c = false -> (forall x, Quiet (k x)) -> Quiet (Vis c k).

(** The tree leaves the loading flag alone for as long as it may still
    await: its only call to [setLoading] is a [setLoading(false)] after
    the last await. *)
Inductive Holds (A : Type) : Prog A -> Prop :=
| HoldsRet (a : A) : Holds (Ret a)
| HoldsThrow (e : Thrown) : Holds (Throw e)
| HoldsRelease (k : unit -> Prog A) :
    (forall x, Quiet (k x)) -> Holds (Vis (SetLoading false) k)
| HoldsVis (X : Type) (c : Call X) (k : X -> Prog A) :
    notSetLoading c -> (forall x, Holds (k x)) -> Holds (Vis c k).

(** ** Suffixes of keys *)

Fixpoint startsWith (p s : jsstring) : bool :=
  match p, s with
  | [], _ => true
  | _ :: _, [] => false
  | a :: p', b :: s' => (N.eqb a b && startsWith p' s')%bool
  end.

Definition endsWith (suffix s : jsstring) : bool :=
  startsWith (rev suffix) (rev s).

Definition isDigitOrMinus (c : N) : Prop := (48 <= c <= 57)%N \/ c = 45%N.

(** ** The screen as a reactive machine

    What the user sees and can press is what [render] returns (lines
    220-270); between two inputs a handler runs up to its next [await].
    The button carries [disabled={loading}], and a disabled
    [TouchableOpacity] does not call [onPress]. *)

Record View := {
  errorBanner : option jsstring;
  avatarPreview : option jsstring;
  bioValue : jsstring;
  linksValue : jsstring;
  buttonDisabled : bool;
  buttonText : jsstring
}.

Definition render (s : State) : option View :=
  match session s with
  | None => None
  | Some _ =>
    Some {| errorBanner := if truthyOpt (error s) then error s else None;
            avatarPreview := if truthyOpt (avatar s) then avatar s else None;
            bioValue := bio s;
            linksValue := links s;
            buttonDisabled := loading s;
            buttonText := if loading s then lit "Saving..."
                          else lit "Save & Continue" |}
  end.

Inductive Input :=
| Press                                   (* the submit button is tapped *)
| Settle (i : nat)                        (* the i-th suspended handler's await settles *)
| TypeBio (v : jsstring)
| TypeLinks (v : jsstring)
| PickAvatar (uri : jsstring)
| AuthChange (sess : option Session).

Record Screen (W : Type) := {
  cells : State;
  pending : list (Prog unit);
  outside : W;
  journal : list Event
}.

Definition setBio (v : jsstring) (s : State) : State :=
  {| session := session s; bio := v; links := links s;
     avatar := avatar s; loading := loading s; error := error s |}.
Definition setLinks (v : jsstring) (s : State) : State :=
  {| session := session s; bio := bio s; links := v;
     avatar := avatar s; loading := loading s; error := error s |}.
Definition setAvatar (v : jsstring) (s : State) : State :=
  {| session := session s; bio := bio s; links := links s;
     avatar := Some v; loading := loading s; error := error s |}.
Definition setSession (v : option Session) (s : State) : State :=
  {| session := v; bio := bio s; links := links s;
     avatar := avatar s; loading := loading s; error := error s |}.

(** Replace the [i]-th element by the elements of [o]. *)
Fixpoint splice {B} (i : nat) (o : option B) (l : list B) : list B :=
  match l, i with
  | [], _ => []
  | _ :: r, O => match o with Some b => b :: r | None => r end
  | a :: r, S j => a :: splice j o r
  end.

Section Reacting.

Variable E : Env.

(** Run a handler up to its next awaited call, or to its end. *)
Fixpoint advance (p : Prog unit) (w : World E) (s : State)
  : option (Prog unit) * World E * State * list Event :=
  match p with
  | Ret _ => (None, w, s, [])
  | Throw _ => (None, w, s, [])
  | Vis c k =>
    if isAwaited c then (Some p, w, s, [])
    else
      let xw := respond E c w in
      let '(q, w', s', t) := advance (k (fst xw)) (snd xw) (applySet c s) in
      (q, w', s', Ev c (fst xw) :: t)
  end.

(** The awaited call at the head of a suspended handler settles, and the
    handler continues to its next await. *)
Definition resume (p : Prog unit) (w : World E) (s : State)
  : option (Prog unit) * World E * State * list Event :=
  match p with
  | Ret _ => (None, w, s, [])
  | Throw _ => (None, w, s, [])
  | Vis c k =>
    let xw := respond E c w in
    let '(q, w', s', t) := advance (k (fst xw)) (snd xw) (applySet c s) in
    (q, w', s', Ev c (fst xw) :: t)
  end.

Definition onPress (m : Screen (World E)) : Screen (World E) :=
  let '(q, w', s', t) := advance (handleSubmit (cells m)) (outside m) (cells m) in
  {| cells := s';
     pending := pending m ++ match q with Some p => [p] | None => [] end;
     outside := w';
     journal := journal m ++ t |}.

Definition react (i : Input) (m : Screen (World E)) : Screen (World E) :=
  match i with
  | Press =>
    match render (cells m) with
    | None => m
    | Some v => if buttonDisabled v then m else onPress m
    end
  | Settle n =>
    match nth_error (pending m) n with
    | None => m
    | Some p =>
      let '(q, w', s', t) := resume p (outside m) (cells m) in
      {| cells := s'; pending := splice n q (pending m);
         outside := w'; journal := journal m ++ t |}
    end
  | TypeBio v =>
    {| cells := setBio v (cells m); pending := pending m;
       outside := outside m; journal := journal m |}
  | TypeLinks v =>
    {| cells := setLinks v (cells m); pending := pending m;
       outside := outside m; journal := journal m |}
  | PickAvatar uri =>
    {| cells := setAvatar uri (cells m); pending := pending m;
       outside := outside m; journal := journal m |}
  | AuthChange sess =>
    {| cells := setSession sess (cells m); pending := pending m;
       outside := outside m;
       journal := journal m ++
                  match sess with
                  | None => [Ev (RouterReplace (lit "/auth")) tt]
                  | Some _ => []
                  end |}
  end.

Definition reactAll (inputs : list Input) (m : Screen (World E))
  : Screen (World E) :=
  fold_left (fun acc i => react i acc) inputs m.

(** The screen when it is mounted: no handler is running. *)
Definition mounted (s : State) (w : World E) : Screen (World E) :=
  {| cells := s; pending := []; outside := w; journal := [] |}.

(** What [advance] and [resume] are expected to leave behind: a handler
    still suspended implies the loading flag is set. *)
Definition stillLoading
  (r : option (Prog unit) * World E * State * list Event) : Prop :=
  match r with
  | (Some p, _, s, _) => loading s = true /\ Holds p
  | (None, _, _, _) => True
  end.

(** At most one handler is suspended, and the flag is set while it is. *)
Definition oneInFlight (m : Screen (World E)) : Prop :=
  pending m = [] \/
  exists p, pending m = [p] /\ loading (cells m) = true /\ Holds p.

End Reacting.

(** ** More trace readers and tree properties *)

(** Navigations forward: the arguments of [router.push]. *)
Definition isPush (e : Event) : option jsstring :=
  match e with
  | Ev (RouterPush p) _ => Some p
  | _ => None
  end.

(** Reads of a derived file: the path fetched and how it settled. *)
Definition isFetch (e : Event) : option (jsstring * Outcome Response) :=
  match e with
  | Ev (Fetch u) o => Some (u, o)
  | _ => None
  end.

Definition isBlobRead (e : Event) : option (Response * Outcome Blob) :=
  match e with
  | Ev (ResponseBlob r) o => Some (r, o)
  | _ => None
  end.

(** The answer recorded in an event is a failure of one of the steps in
    front of the record write: a transformation, a read of a derived
    file, the joint wait on the uploads (rejected, or resolved with an
    error on either side), or the resolution of a public URL.  Setters,
    the router and the clock have no failing answer; the write's own
    answer is not looked at. *)
Definition answerFailed (e : Event) : bool :=
  match e with
  | Ev c x =>
    match c in Call X return X -> bool with
    | ManipulateAsync _ _ _ =>
      fun o => match o with Resolved _ => false | Rejected _ => true end
    | Fetch _ =>
      fun o => match o with Resolved _ => false | Rejected _ => true end
    | ResponseBlob _ =>
      fun o => match o with Resolved _ => false | Rejected _ => true end
    | PromiseAll _ _ =>
      fun o =>
        match o with
        | Resolved (a, b) =>
          match upload_error a, upload_error b with
          | None, None => false
          | _, _ => true
          end
        | Rejected _ => true
        end
    | StorageGetPublicUrl _ _ =>
      fun o => match o with Resolved _ => false | Rejected _ => true end
    | _ => fun _ => false
    end x
  end.

Definition pushes := collect isPush.
Definition fetches := collect isFetch.
Definition blobReads := collect isBlobRead.

(** The tree neither awaits nor touches the loading flag. *)
Inductive Winds (A : Type) : Prog A -> Prop :=
| WindsRet (a : A) : Winds (Ret a)
| WindsThrow (e : Thrown) : Winds (Throw e)
| WindsVis (X : Type) (c : Call X) (k : X -> Prog A) :
    isAwaited c = false -> notSetLoading c ->
    (forall x, Winds (k x)) -> Winds (Vis c k).

(** On every path the tree calls [setLoading(false)], once, after its
    last await, and does not touch the flag before. *)
Inductive Frees (A : Type) : Prog A -> Prop :=
| FreesRelease (k : unit -> Prog A) :
    (forall x, Winds (k x)) -> Frees (Vis (SetLoading false) k)
| FreesVis (X : Type) (c : Call X) (k : X -> Prog A) :
    notSetLoading c -> (forall x, Frees (k x)) -> Frees (Vis c k).

(** The screen is idle with the flag down, or one handler is suspended
    with the flag up and bound to lower it. *)
Definition idleOrBusy {W} (m : Screen W) : Prop :=
  (pending m = [] /\ loading (cells m) = false) \/
  exists p, pending m = [p] /\ loading (cells m) = true /\ Frees p.

(** What running a flag-lowering handler leaves: suspended with the flag
    still up, or finished with the flag down. *)
Definition freed {W} (r : option (Prog unit) * W * State * list Event)
  : Prop :=
  match r with
  | (Some p, _, s, _) => loading s = true /\ Frees p
  | (None, _, s, _) => loading s = false
  end.

(** What running a winding-down handler leaves: finished, flag at [b]. *)
Definition wound {W} (b : bool)
  (r : option (Prog unit) * W * State * list Event) : Prop :=
  match r with
  | (Some _, _, _, _) => False
  | (None, _, s, _) => loading s = b
  end.

(** A handler stopped at an awaited call. *)
Definition isSuspended {A} (p : Prog A) : bool :=
  match p with
  | Vis c _ => isAwaited c
  | _ => false
  end.

(** No path of the tree awaits more than [n] times, by recursion on the
    tree. *)
Fixpoint awaitsWithin {A} (p : Prog A) (n : nat) {struct p} : Prop :=
  match p with
  | Ret _ => True
  | Throw _ => True
  | Vis c k =>
    if isAwaited c
    then match n with
         | O => False
         | S n' => forall x, awaitsWithin (k x) n'
         end
    else forall x, awaitsWithin (k x) n
  end.

(** Everything the screen has issued and everything it still has
    suspended satisfies [P] call by call. *)
Definition screenAlways {W} (P : forall X, Call X -> Prop) (m : Screen W)
  : Prop :=
  Forall (eventCall P) (journal m) /\
  Forall (Always P (A := unit)) (pending m).

(** A record write goes to [users], filtered by the id of the session
    that [s] holds. *)
Definition writesKeyed (s : State) (X : Type) (c : Call X) : Prop :=
  match c with
  | TableUpdate t _ i =>
    t = lit "users" /\
    exists sess, session s = Some sess /\ i = id (user sess)
  | _ => True
  end.

(** ** Handlers over other collaborators

    The screen's other handlers, and the sign-in screen's, talk to
    collaborators of their own.  The same kind of tree serves them all,
    over whatever signature of operations and whatever cells. *)

Module Flow.

Section Signature.

Variable Op : Type -> Type.

Inductive Task (A : Type) : Type :=
| Done (a : A)
| Raise (e : Thrown)
| Ask (X : Type) (o : Op X) (k : X -> Task A).
Arguments Done {A} a.
Arguments Raise {A} e.
Arguments Ask {A X} o k.

Fixpoint andThen {A B} (p : Task A) (f : A -> Task B) : Task B :=
  match p with
  | Done a => f a
  | Raise e => Raise e
  | Ask o k => Ask o (fun x => andThen (k x) f)
  end.

(** [try { p } catch (err) { h err }] *)
Fixpoint rescue {A} (p : Task A) (h : Thrown -> Task A) : Task A :=
  match p with
  | Done a => Done a
  | Raise e => h e
  | Ask o k => Ask o (fun x => rescue (k x) h)
  end.

(** [try { p } finally { f }] *)
Fixpoint ensure {A} (p : Task A) (f : Task unit) : Task A :=
  match p with
  | Done a => andThen f (fun _ => Done a)
  | Raise e => andThen f (fun _ => Raise e)
  | Ask o k => Ask o (fun x => ensure (k x) f)
  end.

Definition perform {X} (o : Op X) : Task X := Ask o (fun x => Done x).

Definition awaiting {X} (o : Op (Outcome X)) : Task X :=
  Ask o (fun r => match r with
                  | Resolved x => Done x
                  | Rejected e => Raise e
                  end).

(** The collaborators behind a signature. *)
Record Backend := {
  Store : Type;
  reply : forall X, Op X -> Store -> X * Store
}.

Inductive Did : Type :=
| DidOp (X : Type) (o : Op X) (x : X).
Arguments DidOp {X} o x.

Record Ran (C W A : Type) := {
  ended : Exit A;
  store : W;
  cellsAfter : C;
  did : list Did
}.

Section Executing.

Variable Cells : Type.
Variable applyOp : forall X, Op X -> Cells -> Cells.
Variable B : Backend.

Fixpoint exec {A} (p : Task A) (w : Store B) (s : Cells)
  : Ran Cells (Store B) A :=
  match p with
  | Done a => {| ended := Returned a; store := w; cellsAfter := s; did := [] |}
  | Raise e => {| ended := Threw e; store := w; cellsAfter := s; did := [] |}
  | Ask o k =>
    let xw := reply B o w in
    let r := exec (k (fst xw)) (snd xw) (applyOp o s) in
    {| ended := ended r; store := store r; cellsAfter := cellsAfter r;
       did := DidOp o (fst xw) :: did r |}
  end.

End Executing.

Fixpoint pick {T} (f : Did -> option T) (l : list Did) : list T :=
  match l with
  | [] => []
  | d :: r =>
    match f d with
    | Some t => t :: pick f r
    | None => pick f r
    end
  end.

End Signature.

Arguments Done {Op A} a.
Arguments Raise {Op A} e.
Arguments Ask {Op A X} o k.
Arguments andThen {Op A B} p f.
Arguments rescue {Op A} p h.
Arguments ensure {Op A} p f.
Arguments perform {Op X} o.
Arguments awaiting {Op X} o.
Arguments reply {Op} b {X} o w.
Arguments DidOp {Op X} o x.
Arguments exec {Op Cells} applyOp B {A} p w s.
Arguments pick {Op T} f l.

Declare Scope task_scope.
Delimit Scope task_scope with task.
Notation "x <- p ;; q" := (andThen p (fun x => q))
  (at level 61, p at next level, right associativity) : task_scope.
Notation "p ;; q" := (andThen p (fun _ => q))
  (at level 61, right associativity) : task_scope.

End Flow.

(** ** The screen's other handlers

    [checkSession], [loadProfileData] and [handleImagePicker] (lines
    56-142) talk to the auth client, the record client's select, the image picker,
    the alert box and the console. *)

Module Entry.

Import Flow.

(** [supabase.auth.getSession()] resolves to [{ data: { session }, error }]. *)
Record SessionResult := {
  gs_session : option Session;
  gs_error : option Thrown
}.

(** The [avatar] column as read back: an object that may hold a [url]. *)
Record AvatarColumn := { stored_url : option jsstring }.

(** The row selected by ['bio, links, avatar']; each column may be null. *)
Record ProfileRow := {
  row_bio : option jsstring;
  row_links : option jsstring;
  row_avatar : option AvatarColumn
}.

(** [.single()] resolves to [{ data, error }]. *)
Record SelectResult := {
  sel_data : option ProfileRow;
  sel_error : option Thrown
}.

(** expo-image-picker *)
Inductive MediaTypeOptions := All | Videos | Images.
Record PickerOptions := {
  mediaTypes : MediaTypeOptions;
  allowsEditing : bool;
  aspect : Z * Z;
  quality : Z
}.
Record Asset := { asset_uri : jsstring }.
Record PickerResult := { canceled : bool; assets : option (list Asset) }.

Inductive Op : Type -> Type :=
| GetSession : Op (Outcome SessionResult)
| SelectSingle (table columns eq_id : jsstring) : Op (Outcome SelectResult)
| LaunchImageLibraryAsync (opts : PickerOptions) : Op (Outcome PickerResult)
| AlertAlert (title text : jsstring) : Op unit
| ConsoleError (label : jsstring) (err : Thrown) : Op unit
| Replace (path : jsstring) : Op unit
| SetSession (v : option Session) : Op unit
| SetBio (v : jsstring) : Op unit
| SetLinks (v : jsstring) : Op unit
| SetAvatar (v : jsstring) : Op unit.

Definition Task := Flow.Task Op.

Local Open Scope task_scope.

(** [v || ''] on a nullable string column. *)
Definition orEmpty (v : option jsstring) : jsstring :=
  match v with
  | Some t => if truthy t then t else lit ""
  | None => lit ""
  end.

(** [data.avatar?.url] *)
Definition avatarUrl (data : ProfileRow) : option jsstring :=
  match row_avatar data with
  | Some a => stored_url a
  | None => None
  end.

(** [loadProfileData], lines 74-94. *)
Definition loadProfileData (userId : jsstring) : Task unit :=
  rescue
    (res <- awaiting (SelectSingle (lit "users") (lit "bio, links, avatar")
                        userId) ;;
     match sel_error res with
     | Some e => Raise e
     | None =>
       match sel_data res with
       | Some data =>
         perform (SetBio (orEmpty (row_bio data))) ;;
         perform (SetLinks (orEmpty (row_links data))) ;;
         if truthyOpt (avatarUrl data)
         then match avatarUrl data with
              | Some u => perform (SetAvatar u)
              | None => Done tt
              end
         else Done tt
       | None => Done tt
       end
     end)
    (fun err => perform (ConsoleError (lit "Error loading profile:") err)).

(** [checkSession], lines 56-72. *)
Definition checkSession : Task unit :=
  rescue
    (res <- awaiting GetSession ;;
     match gs_error res with
     | Some e => Raise e
     | None =>
       match gs_session res with
       | None => perform (Replace (lit "/auth"))
       | Some sess =>
         perform (SetSession (Some sess)) ;;
         loadProfileData (id (user sess))
       end
     end)
    (fun err =>
       perform (ConsoleError (lit "Session error:") err) ;;
       perform (Replace (lit "/auth"))).

(** What reading [.uri] of a missing first asset throws; the [catch]
    block never looks at it. *)
Definition typeError : Thrown :=
  newError (lit "Cannot read property 'uri' of undefined").

(** [handleImagePicker], lines 127-142. *)
Definition handleImagePicker : Task unit :=
  rescue
    (result <- awaiting (LaunchImageLibraryAsync
                           {| mediaTypes := Images;
                              allowsEditing := true;
                              aspect := (1, 1);
                              quality := 1 |}) ;;
     if negb (canceled result) then
       match assets result with
       | Some (first :: _) => perform (SetAvatar (asset_uri first))
       | _ => Raise typeError
       end
     else Done tt)
    (fun _ => perform (AlertAlert (lit "Error") (lit "Failed to pick image"))).

(** *** Running a task *)

Definition applyOp {X} (o : Op X) (s : State) : State :=
  match o with
  | SetSession v => setSession v s
  | SetBio v => setBio v s
  | SetLinks v => setLinks v s
  | SetAvatar v => setAvatar v s
  | _ => s
  end.

Definition Backend := Flow.Backend Op.
Definition Did := Flow.Did Op.

Definition exec (B : Backend) {A} (p : Task A) (w : Store B) (s : State)
  : Ran Op State (Store B) A :=
  Flow.exec (@applyOp) B p w s.

(** *** Reading what a task did *)

Definition isRedirect (d : Did) : option jsstring :=
  match d with
  | DidOp (Replace p) _ => Some p
  | _ => None
  end.

Definition isLogged (d : Did) : option (jsstring * Thrown) :=
  match d with
  | DidOp (ConsoleError l e) _ => Some (l, e)
  | _ => None
  end.

Definition isAlert (d : Did) : option (jsstring * jsstring) :=
  match d with
  | DidOp (AlertAlert t m) _ => Some (t, m)
  | _ => None
  end.

Definition isSelect (d : Did)
  : option (jsstring * jsstring * jsstring * Outcome SelectResult) :=
  match d with
  | DidOp (SelectSingle t c i) r => Some (t, c, i, r)
  | _ => None
  end.

Definition isSessionRead (d : Did) : option (Outcome SessionResult) :=
  match d with
  | DidOp GetSession r => Some r
  | _ => None
  end.

Definition isLaunch (d : Did)
  : option (PickerOptions * Outcome PickerResult) :=
  match d with
  | DidOp (LaunchImageLibraryAsync o) r => Some (o, r)
  | _ => None
  end.

Definition redirects := pick (Op := Op) isRedirect.
Definition logged := pick (Op := Op) isLogged.
Definition alerts := pick (Op := Op) isAlert.
Definition selects := pick (Op := Op) isSelect.
Definition sessionReads := pick (Op := Op) isSessionRead.
Definition launches := pick (Op := Op) isLaunch.

(** The row a select produced, if it produced one: resolved, no error,
    data present. *)
Definition rowOf (r : Outcome SelectResult) : option ProfileRow :=
  match r with
  | Resolved res =>
    match sel_error res with
    | Some _ => None
    | None => sel_data res
    end
  | Rejected _ => None
  end.

(** The session a session read produced, if any. *)
Definition sessionOf (r : Outcome SessionResult) : option Session :=
  match r with
  | Resolved res =>
    match gs_error res with
    | Some _ => None
    | None => gs_session res
    end
  | Rejected _ => None
  end.

(** The path a picker run handed over: not canceled, a first asset. *)
Definition pickedOf (r : Outcome PickerResult) : option jsstring :=
  match r with
  | Resolved res =>
    if canceled res then None
    else match assets res with
         | Some (first :: _) => Some (asset_uri first)
         | _ => None
         end
  | Rejected _ => None
  end.

(** The error a select ended on, if it failed: the rejection or the
    reported error. *)
Definition selectFailure (r : Outcome SelectResult) : option Thrown :=
  match r with
  | Resolved res => sel_error res
  | Rejected e => Some e
  end.

(** The user closed the picker without choosing. *)
Definition dismissed (r : Outcome PickerResult) : bool :=
  match r with
  | Resolved res => canceled res
  | Rejected _ => false
  end.

(** The cells as the [useState] calls of lines 33-38 create them. *)
Definition initialState : State :=
  {| session := None; bio := lit ""; links := lit "";
     avatar := None; loading := false; error := None |}.

(** A scripted backend: the three awaited calls answer as told. *)
Record Plan := {
  sessionAnswer : Outcome SessionResult;
  selectAnswer : Outcome SelectResult;
  pickerAnswer : Outcome PickerResult
}.

Definition plannedReply (X : Type) (o : Op X) (w : Plan) : X * Plan :=
  match o in Op X return X * Plan with
  | GetSession => (sessionAnswer w, w)
  | SelectSingle _ _ _ => (selectAnswer w, w)
  | LaunchImageLibraryAsync _ => (pickerAnswer w, w)
  | AlertAlert _ _ => (tt, w)
  | ConsoleError _ _ => (tt, w)
  | Replace _ => (tt, w)
  | SetSession _ => (tt, w)
  | SetBio _ => (tt, w)
  | SetLinks _ => (tt, w)
  | SetAvatar _ => (tt, w)
  end.

Definition planned : Backend :=
  {| Store := Plan; Flow.reply := plannedReply |}.

(** A stored profile, complete. *)
Definition storedRow : ProfileRow :=
  {| row_bio := Some (lit "Hello");
     row_links := Some (lit "https://x.com");
     row_avatar :=
       Some {| stored_url := Some (lit "https://cdn/avatars/u1-1.jpg") |} |}.

(** The session is there, the row too, and the user picks a file. *)
Definition smooth : Plan :=
  {| sessionAnswer := Resolved {| gs_session := Some u1; gs_error := None |};
     selectAnswer :=
       Resolved {| sel_data := Some storedRow; sel_error := None |};
     pickerAnswer :=
       Resolved {| canceled := false;
                   assets := Some [{| asset_uri := lit "file:///new.png" |}] |} |}.

(** The screen of a signed-in user before anything is loaded. *)
Definition signedIn : State := setSession (Some u1) initialState.

End Entry.

(** ** The sign-in screen

    [src/screens/AuthScreen.tsx]: the two validators and [handleAuth]
    (lines 20-83). *)

Module Auth.

Import Flow.

(** *** Regular expressions over code units

    [emailRegex.test(email)] on a pattern anchored at both ends asks
    whether the whole string is in the pattern's language; it is decided
    here by derivatives. *)

Inductive Regex : Type :=
| Never
| Empty
| Unit (accept : N -> bool)
| Then (r1 r2 : Regex)
| Or (r1 r2 : Regex)
| Star (r : Regex).

(** [r+] *)
Definition plus (r : Regex) : Regex := Then r (Star r).

Fixpoint nullable (r : Regex) : bool :=
  match r with
  | Never => false
  | Empty => true
  | Unit _ => false
  | Then r1 r2 => nullable r1 && nullable r2
  | Or r1 r2 => nullable r1 || nullable r2
  | Star _ => true
  end.

Fixpoint derive (c : N) (r : Regex) : Regex :=
  match r with
  | Never => Never
  | Empty => Never
  | Unit f => if f c then Empty else Never
  | Then r1 r2 =>
    if nullable r1
    then Or (Then (derive c r1) r2) (derive c r2)
    else Then (derive c r1) r2
  | Or r1 r2 => Or (derive c r1) (derive c r2)
  | Star r1 => Then (derive c r1) (Star r1)
  end.

Fixpoint test (r : Regex) (s : jsstring) : bool :=
  match s with
  | [] => nullable r
  | c :: s' => test (derive c r) s'
  end.

(** The language of a pattern. *)
Inductive Matches : Regex -> jsstring -> Prop :=
| MatchesEmpty : Matches Empty []
| MatchesUnit f c : f c = true -> Matches (Unit f) [c]
| MatchesThen r1 r2 s1 s2 :
    Matches r1 s1 -> Matches r2 s2 -> Matches (Then r1 r2) (s1 ++ s2)
| MatchesOrL r1 r2 s : Matches r1 s -> Matches (Or r1 r2) s
| MatchesOrR r1 r2 s : Matches r2 s -> Matches (Or r1 r2) s
| MatchesStarNil r : Matches (Star r) []
| MatchesStarApp r s1 s2 :
    Matches r s1 -> Matches (Star r) s2 -> Matches (Star r) (s1 ++ s2).

(** The class [[^\s@]]: any code unit but white space and the at sign. *)
Definition notSpaceNorAt (c : N) : bool :=
  negb (isWhiteSpace c || N.eqb c 64).

(** [/^[^\s@]+@[^\s@]+\.[^\s@]+$/] *)
Definition emailRegex : Regex :=
  Then (plus (Unit notSpaceNorAt))
    (Then (Unit (N.eqb 64))
       (Then (plus (Unit notSpaceNorAt))
          (Then (Unit (N.eqb 46))
             (plus (Unit notSpaceNorAt))))).

(** [validateEmail], lines 20-23. *)
Definition validateEmail (email : jsstring) : bool := test emailRegex email.

(** [validatePassword], lines 25-27. *)
Definition validatePassword (password : jsstring) : bool :=
  (6 <=? List.length password)%nat.

(** *** The screen's cells and collaborators *)

Inductive Mode := signin | signup.

Record AuthState := {
  email : jsstring;
  password : jsstring;
  loading : bool;
  error : option jsstring;
  mode : Mode
}.

(** [supabase.auth.signUp] and [signInWithPassword] resolve to
    [{ data, error }]; of [data] only [data?.session] is looked at. *)
Record SignUpResult := { su_error : option Thrown }.
Record SignInResult := {
  si_session : option Session;
  si_error : option Thrown
}.

Inductive Op : Type -> Type :=
| SetLoading (b : bool) : Op unit
| SetError (e : option jsstring) : Op unit
| NowIso : Op jsstring
| SignUp (email password created_at updated_at : jsstring)
    : Op (Outcome SignUpResult)
| SignInWithPassword (email password : jsstring)
    : Op (Outcome SignInResult)
| ConsoleLog (label : jsstring) (sess : Session) : Op unit
| OnAuthSuccess : Op (Outcome unit).

Definition Task := Flow.Task Op.

Local Open Scope task_scope.

(** The text the [catch] block shows, line 79. *)
Definition errorText (err : Thrown) : jsstring :=
  if instanceofError err then message err else lit "An error occurred".

(** Lines 52-75: the call to the auth client. *)
Definition authenticate (s : AuthState) : Task unit :=
  match mode s with
  | signup =>
    created <- perform NowIso ;;
    updated <- perform NowIso ;;
    res <- awaiting (SignUp (email s) (password s) created updated) ;;
    match su_error res with
    | Some e => Raise e
    | None => Done tt
    end
  | signin =>
    res <- awaiting (SignInWithPassword (email s) (password s)) ;;
    match si_error res with
    | Some e => Raise e
    | None =>
      match si_session res with
      | Some sess => perform (ConsoleLog (lit "Session:") sess)
      | None => Done tt
      end
    end
  end.

Definition reject (text : string) : Task unit :=
  perform (SetError (Some (lit text))) ;;
  perform (SetLoading false).

(** [handleAuth], lines 29-83.  [hasCallback] says whether the optional
    [onAuthSuccess] prop was given. *)
Definition handleAuth (hasCallback : bool) (s : AuthState) : Task unit :=
  perform (SetLoading true) ;;
  perform (SetError None) ;;
  if (negb (truthy (email s)) || negb (truthy (password s)))%bool then
    reject "Email and password are required."
  else if negb (validateEmail (email s)) then
    reject "Invalid email address."
  else if negb (validatePassword (password s)) then
    reject "Password must be at least 6 characters long."
  else
    ensure
      (rescue
         (authenticate s ;;
          if hasCallback then awaiting OnAuthSuccess else Done tt)
         (fun err => perform (SetError (Some (errorText err)))))
      (perform (SetLoading false)).

Definition applyOp {X} (o : Op X) (s : AuthState) : AuthState :=
  match o with
  | SetLoading b =>
    {| email := email s; password := password s; loading := b;
       error := error s; mode := mode s |}
  | SetError e =>
    {| email := email s; password := password s; loading := loading s;
       error := e; mode := mode s |}
  | _ => s
  end.

Definition Backend := Flow.Backend Op.

Definition exec (B : Backend) {A} (p : Task A) (w : Store B) (s : AuthState)
  : Ran Op AuthState (Store B) A :=
  Flow.exec (@applyOp) B p w s.

(** *** Reading what the handler did *)

Inductive AuthCall :=
| CalledSignUp (email password created_at updated_at : jsstring)
| CalledSignIn (email password : jsstring).

Definition isAuthCall (d : Flow.Did Op) : option AuthCall :=
  match d with
  | DidOp (SignUp e p c u) _ => Some (CalledSignUp e p c u)
  | DidOp (SignInWithPassword e p) _ => Some (CalledSignIn e p)
  | _ => None
  end.

(** The error an auth call ended on, if it failed. *)
Definition isAuthFailure (d : Flow.Did Op) : option (option Thrown) :=
  match d with
  | DidOp (SignUp _ _ _ _) (Resolved r) => Some (su_error r)
  | DidOp (SignUp _ _ _ _) (Rejected e) => Some (Some e)
  | DidOp (SignInWithPassword _ _) (Resolved r) => Some (si_error r)
  | DidOp (SignInWithPassword _ _) (Rejected e) => Some (Some e)
  | _ => None
  end.

Definition isShown (d : Flow.Did Op) : option jsstring :=
  match d with
  | DidOp (SetError (Some m)) _ => Some m
  | _ => None
  end.

Definition isSuccessCallback (d : Flow.Did Op) : option (Outcome unit) :=
  match d with
  | DidOp OnAuthSuccess o => Some o
  | _ => None
  end.

Definition isClock (d : Flow.Did Op) : option jsstring :=
  match d with
  | DidOp NowIso t => Some t
  | _ => None
  end.

Definition authCalls := pick (Op := Op) isAuthCall.
Definition authFailures := pick (Op := Op) isAuthFailure.
Definition shown := pick (Op := Op) isShown.
Definition successCallbacks := pick (Op := Op) isSuccessCallback.
Definition clockTexts := pick (Op := Op) isClock.

(** A scripted auth client. *)
Record Plan := {
  signUpAnswer : Outcome SignUpResult;
  signInAnswer : Outcome SignInResult;
  callbackAnswer : Outcome unit
}.

Definition plannedReply (X : Type) (o : Op X) (w : Plan) : X * Plan :=
  match o in Op X return X * Plan with
  | SetLoading _ => (tt, w)
  | SetError _ => (tt, w)
  | NowIso => (lit "2024-01-01T00:00:00.000Z", w)
  | SignUp _ _ _ _ => (signUpAnswer w, w)
  | SignInWithPassword _ _ => (signInAnswer w, w)
  | ConsoleLog _ _ => (tt, w)
  | OnAuthSuccess => (callbackAnswer w, w)
  end.

Definition planned : Backend :=
  {| Store := Plan; Flow.reply := plannedReply |}.

Definition welcoming : Plan :=
  {| signUpAnswer := Resolved {| su_error := None |};
     signInAnswer := Resolved {| si_session := Some u1; si_error := None |};
     callbackAnswer := Resolved tt |}.

Definition typed (e p : string) (m : Mode) : AuthState :=
  {| email := lit e; password := lit p; loading := false;
     error := None; mode := m |}.

End Auth.

(** * Verification *)

Arguments lit : simpl never.
Arguments numberToString : simpl never.

(** ** Calls of a tree and events of its runs *)

Section AlwaysFacts.

Variable P : forall X, Call X -> Prop.

Lemma Always_bind A B (p : Prog A) (f : A -> Prog B) :
  Always P p -> (forall a, Always P (f a)) -> Always P (bind p f).
Proof.
  intros Hp Hf. induction Hp as [a|e|X c k Hc Hk IH]; cbn.
  - apply Hf.
  - constructor.
  - constructor; assumption.
Qed.

Lemma Always_try_catch A (p : Prog A) (h : Thrown -> Prog A) :
  Always P p -> (forall e, Always P (h e)) -> Always P (try_catch p h).
Proof.
  intros Hp Hh. induction Hp as [a|e|X c k Hc Hk IH]; cbn.
  - constructor.
  - apply Hh.
  - constructor; assumption.
Qed.

Lemma Always_finally A (p : Prog A) (f : Prog unit) :
  Always P p -> Always P f -> Always P (finally p f).
Proof.
  intros Hp Hf. induction Hp as [a|e|X c k Hc Hk IH]; cbn.
  - apply Always_bind; [assumption | intros; constructor].
  - apply Always_bind; [assumption | intros; constructor].
  - constructor; assumption.
Qed.

Lemma Always_call X (c : Call X) : P c -> Always P (call c).
Proof. intro Hc. constructor; [assumption | intros; constructor]. Qed.

Lemma Always_await X (c : Call (Outcome X)) : P c -> Always P (await c).
Proof. intro Hc. constructor; [assumption | intros [x|e]; constructor]. Qed.

(** What holds of every call of a tree holds of every event of its runs. *)
Lemma Always_run (E : Env) A (p : Prog A) (w : World E) (s : State) :
  Always P p -> Forall (eventCall P) (trace (run E p w s)).
Proof.
  intros Hp. revert w s.
  induction Hp as [a|e|X c k Hc Hk IH]; intros w s; cbn.
  - constructor.
  - constructor.
  - constructor; [exact Hc | apply IH].
Qed.

End AlwaysFacts.

(** Walks a tree built from the combinators and leaves the obligations on
    its calls. *)
Ltac always :=
  repeat first
    [ apply Always_bind; [| intro]
    | apply Always_try_catch; [| intro]
    | apply Always_finally
    | apply Always_call
    | apply Always_await
    | apply AlwaysRet
    | apply AlwaysThrow
    | match goal with
      | |- Always _ (match ?x with _ => _ end) => destruct x
      | |- Always _ (if ?x then _ else _) => destruct x
      | |- Always _ (let (_, _) := ?x in _) => destruct x
      end
    | exact I ].

Lemma handleSubmit_never_removes s : Always notRemove (handleSubmit s).
Proof.
  unfold handleSubmit, submitBody, uploadAvatar, compressImage. always.
Qed.

Lemma submitBody_leaves_loading sess s :
  Always notSetLoading (submitBody sess s).
Proof.
  unfold submitBody, uploadAvatar, compressImage. always.
Qed.

Lemma handleSubmit_writes_verbatim s :
  Always (writesVerbatim s) (handleSubmit s).
Proof.
  unfold handleSubmit, submitBody, uploadAvatar, compressImage. always.
  all: cbn; auto.
Qed.

Lemma no_remove_call_no_removal t :
  Forall (eventCall notRemove) t -> removals t = [].
Proof.
  induction 1 as [|e t He Ht IH]; [reflexivity|].
  destruct e as [X c x]. destruct c; cbn in *; try exact IH. contradiction.
Qed.

Lemma verbatim_calls_verbatim_writes s t tbl v i :
  Forall (eventCall (writesVerbatim s)) t ->
  In (tbl, v, i) (writes t) ->
  upd_bio v = bio s /\ upd_links v = links s.
Proof.
  induction 1 as [|e t He Ht IH]; cbn; [contradiction|].
  destruct e as [X c x]. destruct c; cbn in *; try exact IH.
  intros [Heq|Hin]; [|exact (IH Hin)].
  injection Heq as _ Hv _. subst. exact He.
Qed.

(** ** Storage keys *)

Lemma startsWith_app p q : startsWith p (p ++ q) = true.
Proof.
  induction p as [|a p IH]; cbn.
  - reflexivity.
  - rewrite N.eqb_refl. exact IH.
Qed.

Lemma startsWith_strip x p s : startsWith (x ++ p) (x ++ s) = startsWith p s.
Proof.
  induction x as [|a x IH]; cbn [app startsWith].
  - reflexivity.
  - rewrite N.eqb_refl. exact IH.
Qed.

Lemma startsWith_head a p c s : a <> c -> startsWith (a :: p) (c :: s) = false.
Proof.
  intros Hac. cbn [startsWith].
  destruct (N.eqb_spec a c) as [Heq|_]; [contradiction | reflexivity].
Qed.

Lemma endsWith_app a suffix : endsWith suffix (a ++ suffix) = true.
Proof. unfold endsWith. rewrite rev_app_distr. apply startsWith_app. Qed.

Lemma uint_chars d : Forall isDigitOrMinus (lit (NilEmpty.string_of_uint d)).
Proof.
  unfold lit.
  induction d; cbn; constructor; try assumption; left; cbn; lia.
Qed.

(** The printed timestamp is never empty and holds only digits and a
    possible sign. *)
Lemma numberToString_chars n :
  numberToString n <> [] /\ Forall isDigitOrMinus (numberToString n).
Proof.
  unfold numberToString, NilZero.string_of_int.
  destruct (Z.to_int n) as [d|d].
  - destruct d; (split; [discriminate|]); try apply uint_chars.
    unfold lit; cbn. constructor; [left; lia | constructor].
  - split; [discriminate|].
    unfold lit. cbn. constructor; [right; reflexivity|].
    destruct d; try apply uint_chars.
    cbn. constructor; [left; lia | constructor].
Qed.

Lemma mainFileName_not_thumb i n :
  endsWith (lit "-thumb.jpg")
    (i ++ lit "-" ++ numberToString n ++ lit ".jpg") = false.
Proof.
  destruct (numberToString_chars n) as [Hne Hall].
  unfold endsWith.
  change (lit "-thumb.jpg") with (lit "-thumb" ++ lit ".jpg").
  rewrite !rev_app_distr, <- !app_assoc, startsWith_strip.
  apply Forall_rev in Hall.
  destruct (rev (numberToString n)) as [|c r] eqn:Hr.
  - exfalso. apply Hne.
    rewrite <- (rev_involutive (numberToString n)), Hr. reflexivity.
  - inversion Hall as [|? ? Hc _]; subst.
    change (rev (lit "-thumb")) with (98%N :: rev (lit "-thum")).
    apply startsWith_head.
    destruct Hc as [Hc|Hc]; lia.
Qed.

Lemma thumbFileName_thumb i n :
  endsWith (lit "-thumb.jpg")
    (i ++ lit "-" ++ numberToString n ++ lit "-thumb.jpg") = true.
Proof. rewrite !app_assoc. apply endsWith_app. Qed.

(** ** The loading flag while a handler is suspended *)

Lemma Holds_finally_release A (p : Prog A) :
  Always notSetLoading p -> Holds (finally p (call (SetLoading false))).
Proof.
  induction 1 as [a|e|X c k Hc Hk IH]; cbn.
  - apply HoldsRelease. intros; constructor.
  - apply HoldsRelease. intros; constructor.
  - apply HoldsVis; assumption.
Qed.

(** [handleSubmit] either ends at once, or sets the flag first and keeps
    it until its last await is behind it. *)
Lemma handleSubmit_holds s :
  Quiet (handleSubmit s) \/
  exists k, handleSubmit s = Vis (SetLoading true) k /\ forall x, Holds (k x).
Proof.
  unfold handleSubmit. destruct (session s) as [sess|].
  - right. cbn. eexists. split; [reflexivity|]. intros x. cbn.
    apply HoldsVis; [exact I|]. intros y.
    destruct (missingField s); cbn.
    + apply HoldsVis; [exact I|]. intros z.
      apply HoldsRelease. intros; constructor.
    + apply Holds_finally_release. apply Always_try_catch.
      * apply submitBody_leaves_loading.
      * intro. apply Always_call. exact I.
  - left. constructor; [reflexivity | intros; constructor].
Qed.

Lemma notSetLoading_loading X (c : Call X) s :
  notSetLoading c -> loading (applySet c s) = loading s.
Proof. destruct c; cbn; intros H; try reflexivity; contradiction. Qed.

Section MachineFacts.

Variable E : Env.

Lemma Quiet_advance p (w : World E) s :
  Quiet p -> stillLoading E (advance E p w s).
Proof.
  intros Hp. revert w s.
  induction Hp as [a|e|X c k Hc Hk IH]; intros w s; cbn; try exact I.
  rewrite Hc.
  specialize (IH (fst (respond E c w)) (snd (respond E c w)) (applySet c s)).
  destruct (advance E _ _ _) as [[[q w'] s'] t]. exact IH.
Qed.

Lemma Holds_advance p (w : World E) s :
  Holds p -> loading s = true -> stillLoading E (advance E p w s).
Proof.
  intros Hp. revert w s.
  induction Hp as [a|e|k Hk|X c k Hc Hk IH]; intros w s Hl; cbn;
    try exact I.
  - pose proof (Quiet_advance (snd (respond E (SetLoading false) w))
                  (applySet (SetLoading false) s)
                  (Hk (fst (respond E (SetLoading false) w)))) as Hq.
    destruct (advance E _ _ _) as [[[q w'] s'] t]. exact Hq.
  - destruct (isAwaited c).
    + cbn. split; [assumption | apply HoldsVis; assumption].
    + assert (Hl' : loading (applySet c s) = true)
        by (rewrite notSetLoading_loading; assumption).
      specialize (IH (fst (respond E c w)) (snd (respond E c w)) _ Hl').
      destruct (advance E _ _ _) as [[[q w'] s'] t]. exact IH.
Qed.

Lemma Holds_resume p (w : World E) s :
  Holds p -> loading s = true -> stillLoading E (resume E p w s).
Proof.
  intros Hp Hl. destruct Hp as [a|e|k Hk|X c k Hc Hk]; cbn; try exact I.
  - pose proof (Quiet_advance (snd (respond E (SetLoading false) w))
                  (applySet (SetLoading false) s)
                  (Hk (fst (respond E (SetLoading false) w)))) as Hq.
    destruct (advance E _ _ _) as [[[q w'] s'] t]. exact Hq.
  - assert (Hl' : loading (applySet c s) = true)
      by (rewrite notSetLoading_loading; assumption).
    pose proof (Holds_advance (snd (respond E c w)) (applySet c s)
                  (Hk (fst (respond E c w))) Hl') as Hq.
    destruct (advance E _ _ _) as [[[q w'] s'] t]. exact Hq.
Qed.

Lemma handleSubmit_advance s (w : World E) s0 :
  stillLoading E (advance E (handleSubmit s) w s0).
Proof.
  destruct (handleSubmit_holds s) as [Hq | [k [Hk Hh]]].
  - apply Quiet_advance, Hq.
  - rewrite Hk. cbn.
    pose proof (Holds_advance (snd (respond E (SetLoading true) w))
                  (applySet (SetLoading true) s0)
                  (Hh (fst (respond E (SetLoading true) w))) eq_refl) as Hq.
    destruct (advance E _ _ _) as [[[q w'] s'] t]. exact Hq.
Qed.

Lemma react_oneInFlight i m : oneInFlight E m -> oneInFlight E (react E i m).
Proof.
  intros Hm. destruct i; cbn.
  - unfold render. destruct (session (cells m)); [|exact Hm]. cbn.
    destruct (loading (cells m)) eqn:Hl; [exact Hm|].
    destruct Hm as [Hp | [p [_ [Hl' _]]]]; [|congruence].
    unfold onPress.
    pose proof (handleSubmit_advance (cells m) (outside m) (cells m)) as Hq.
    destruct (advance E _ _ _) as [[[q w'] s'] t]. rewrite Hp. cbn.
    destruct q as [p|]; [right|left; reflexivity].
    exists p. cbn in Hq. tauto.
  - destruct Hm as [Hp | [p [Hp [Hl Hh]]]]; rewrite Hp.
    + destruct i; cbn; left; assumption.
    + destruct i as [|i]; cbn.
      * pose proof (Holds_resume (outside m) (cells m) Hh Hl) as Hq.
        destruct (resume E _ _ _) as [[[q w'] s'] t]. cbn.
        destruct q as [p'|]; [right|left; reflexivity].
        exists p'. cbn in Hq. tauto.
      * destruct i; cbn; right; exists p; auto.
  - destruct Hm as [Hp | [p [Hp [Hl Hh]]]];
      [left; assumption | right; exists p; auto].
  - destruct Hm as [Hp | [p [Hp [Hl Hh]]]];
      [left; assumption | right; exists p; auto].
  - destruct Hm as [Hp | [p [Hp [Hl Hh]]]];
      [left; assumption | right; exists p; auto].
  - destruct Hm as [Hp | [p [Hp [Hl Hh]]]];
      [left; assumption | right; exists p; auto].
Qed.

Lemma reactAll_oneInFlight inputs m :
  oneInFlight E m -> oneInFlight E (reactAll E inputs m).
Proof.
  revert m. induction inputs as [|i inputs IH]; intros m Hm; cbn.
  - exact Hm.
  - apply IH, react_oneInFlight, Hm.
Qed.

End MachineFacts.

(** C8. Whatever the user and the collaborators do after the screen is
    mounted, at most one [handleSubmit] is suspended at any time; while one
    is, the loading flag is set, and pressing the button then changes
    nothing: no call is issued and no second handler starts. *)
Theorem press_ignored_while_in_flight
  (E : Env) (w0 : World E) (s0 : State) (inputs : list Input) :
  let m := reactAll E inputs (mounted E s0 w0) in
  (List.length (pending m) <= 1)%nat /\
  (pending m <> [] -> loading (cells m) = true /\ react E Press m = m).
Proof.
  intros m.
  assert (Hm : oneInFlight E m)
    by (apply reactAll_oneInFlight; left; reflexivity).
  destruct Hm as [Hp | [p [Hp [Hl Hh]]]]; rewrite Hp; cbn; split; try lia.
  - congruence.
  - intros _. split; [assumption|]. unfold render.
    destruct (session (cells m)); [|reflexivity]. cbn. rewrite Hl. reflexivity.
Qed.

Lemma press_ignored_while_in_flight_witness :
  let m := reactAll scripted [Press; TypeBio (lit "Hi"); Settle 0]
             (mounted scripted filled (allGood 1690000000000 1)) in
  pending m <> [] /\ loading (cells m) = true /\ react scripted Press m = m.
Proof.
  intros m.
  assert (Hp : pending m <> []) by (vm_compute; discriminate).
  split; [exact Hp|].
  exact (proj2 (press_ignored_while_in_flight scripted
                  (allGood 1690000000000 1) filled
                  [Press; TypeBio (lit "Hi"); Settle 0]) Hp).
Defined.

(** ** The two guards in front of the sequence *)

(** Without a session [handleSubmit] only redirects: nothing is shown and
    no cell changes. *)
Remark no_session_redirects (E : Env) (w : World E) (s : State) :
  session s = None ->
  let r := submit E w s in
  List.length (trace r) = 1%nat /\
  shown (trace r) = [] /\
  network (trace r) = [] /\
  final r = s.
Proof.
  intros Hs r. subst r. unfold submit, handleSubmit. rewrite Hs. cbn.
  repeat split.
Qed.

(** [handleSubmit] itself never reads the loading flag: what keeps a
    second sequence from starting is the button, not the handler. *)
Remark handleSubmit_ignores_loading (s : State) (b : bool) :
  handleSubmit (applySet (SetLoading b) s) = handleSubmit s.
Proof. reflexivity. Qed.

(** ** Running [handleSubmit] symbolically *)

(** Name the environment's answer to the next call. *)
Ltac answer :=
  match goal with
  | |- context [respond ?E ?c ?w] =>
    is_var w;
    let o := fresh "o" in
    let w' := fresh "w" in
    let Ho := fresh "Ho" in
    destruct (respond E c w) as [o w'] eqn:Ho; cbn [fst snd]
  end.

(** Split on how an answer settles. *)
Ltac settle :=
  match goal with
  | |- context [match ?o with Resolved _ => _ | Rejected _ => _ end] =>
    is_var o; destruct o; cbn
  | |- context [match upload_error ?u with _ => _ end] =>
    destruct (upload_error u) eqn:?; cbn
  | |- context [match update_error ?u with _ => _ end] =>
    destruct (update_error u) eqn:?; cbn
  | |- context [let (_, _) := ?p in _] => is_var p; destruct p; cbn
  end.

Ltac explore := repeat first [answer | settle].

(** Validation passed: the picked path is there and not empty. *)
Lemma validated_picked s :
  missingField s = false ->
  exists a, avatar s = Some a /\ truthy a = true.
Proof.
  unfold missingField. intros Hm.
  apply orb_false_elim in Hm. destruct Hm as [Hm _].
  apply orb_false_elim in Hm. destruct Hm as [_ Hm].
  apply negb_false_iff in Hm.
  destruct (avatar s) as [a|]; [|discriminate].
  exists a. split; [reflexivity | exact Hm].
Qed.

(** With a picked image the [if (avatar)] block of the body is taken. *)
Lemma submitBody_picked sess s a :
  avatar s = Some a -> truthy a = true ->
  submitBody sess s =
  (avatarData <- (d <- uploadAvatar sess a ;; Ret (Some d)) ;;
   res <- await (TableUpdate (lit "users")
                   {| upd_bio := bio s;
                      upd_avatar := avatarData;
                      upd_links := links s |}
                   (id (user sess))) ;;
   match update_error res with
   | Some updateError => Throw updateError
   | None => call (RouterPush (lit "/dash"))
   end).
Proof.
  intros Ha Ht. unfold submitBody. rewrite Ha, Ht. reflexivity.
Qed.

(** Split a submission into its three ways in: no session, a missing
    field, or the guarded sequence; then run to the first answer. *)
Ltac enter s :=
  unfold submit, handleSubmit;
  let sess := fresh "sess" in
  let Hsession := fresh "Hsession" in
  let Hmissing := fresh "Hmissing" in
  destruct (session s) as [sess|] eqn:Hsession;
  [ destruct (missingField s) eqn:Hmissing;
    [ | let a := fresh "a" in
        let Ha := fresh "Havatar" in
        let Ht := fresh "Htruthy" in
        destruct (validated_picked s Hmissing) as [a [Ha Ht]];
        rewrite (submitBody_picked sess s Ha Ht);
        unfold uploadAvatar, compressImage ]
  | ]; cbn.



(** C2. With a session, bio and links not empty after trimming and an
    image picked, if no answer the collaborators give during the
    submission is a failure (both transformations resolve, both derived
    files are read, the joint wait on the uploads resolves without an
    error on either side, both public URLs resolve), then the handler
    gets as far as the record write and issues it exactly once, on the
    [users] table, filtered by the session's user id; its [avatar] holds
    the two resolved URLs, which are those of the two uploaded keys, and
    the width and height the main transformation reported. *)
Theorem successful_submission_writes_once
  (E : Env) (w : World E) (s : State) (sess : Session) :
  session s = Some sess ->
  truthy (trim (bio s)) = true ->
  truthy (trim (links s)) = true ->
  truthyOpt (avatar s) = true ->
  let r := submit E w s in
  existsb answerFailed (trace r) = false ->
  exists m t mainFileName thumbFileName mainUrl thumbUrl v d,
    List.map snd (transforms (trace r)) = [Resolved m; Resolved t] /\
    List.map fst (uploads (trace r))
    = [(lit "avatars", mainFileName); (lit "avatars", thumbFileName)] /\
    resolutions (trace r)
    = [(lit "avatars", mainFileName, Resolved mainUrl);
       (lit "avatars", thumbFileName, Resolved thumbUrl)] /\
    writes (trace r) = [(lit "users", v, id (user sess))] /\
    upd_avatar v = Some d /\
    url d = mainUrl /\
    thumbnail_url d = thumbUrl /\
    width (metadata d) = ir_width m /\
    height (metadata d) = ir_height m.
Proof.
  intros Hs Hb Hl Ha r. subst r.
  assert (Hm : missingField s = false)
    by (unfold missingField; rewrite Hb, Hl, Ha; reflexivity).
  enter s; [congruence | | discriminate].
  injection Hs as <-.
  explore; intros Hok; try discriminate.
  all: do 8 eexists; repeat split.
Qed.

Lemma successful_submission_writes_once_witness :
  let r := submit scripted (allGood 1690000000000 7) filled in
  existsb answerFailed (trace r) = false /\
  exists m t mainFileName thumbFileName mainUrl thumbUrl v d,
    List.map snd (transforms (trace r)) = [Resolved m; Resolved t] /\
    List.map fst (uploads (trace r))
    = [(lit "avatars", mainFileName); (lit "avatars", thumbFileName)] /\
    resolutions (trace r)
    = [(lit "avatars", mainFileName, Resolved mainUrl);
       (lit "avatars", thumbFileName, Resolved thumbUrl)] /\
    writes (trace r) = [(lit "users", v, id (user u1))] /\
    upd_avatar v = Some d /\
    url d = mainUrl /\
    thumbnail_url d = thumbUrl /\
    width (metadata d) = ir_width m /\
    height (metadata d) = ir_height m.
Proof.
  intros r.
  assert (Hok : existsb answerFailed (trace r) = false) by reflexivity.
  split; [exact Hok|].
  exact (@successful_submission_writes_once
           scripted (allGood 1690000000000 7) filled u1
           eq_refl eq_refl eq_refl eq_refl Hok).
Defined.

(** C3. A submission whose trimmed bio is empty, whose trimmed links
    text is empty, or whose picked image is absent issues no
    transformation, no upload, no record write and no network call at
    all; coming from a rendered screen, that is with a session, it shows
    exactly one message, the validation error, and resets the loading
    flag. *)
Theorem missing_field_stops_submission
  (E : Env) (w : World E) (s : State) :
  trim (bio s) = [] \/ trim (links s) = [] \/ truthyOpt (avatar s) = false ->
  let r := submit E w s in
  (transforms (trace r) = [] /\
   uploads (trace r) = [] /\
   writes (trace r) = [] /\
   network (trace r) = []) /\
  (forall sess,
     session s = Some sess ->
     shown (trace r) = [lit "All fields are required."] /\
     error (final r) = Some (lit "All fields are required.") /\
     loading (final r) = false).
Proof.
  intros Hmiss r. subst r.
  assert (Hm : missingField s = true).
  { unfold missingField.
    destruct Hmiss as [H | [H | H]]; rewrite H; cbn.
    - reflexivity.
    - apply orb_true_r.
    - rewrite orb_true_r. reflexivity. }
  unfold submit, handleSubmit. rewrite Hm.
  destruct (session s) as [sess|]; cbn.
  - split; [repeat split|].
    intros sess' _. repeat split.
  - split; [repeat split|]. discriminate.
Qed.

Lemma missing_field_stops_submission_witness :
  let r := submit scripted (allGood 1690000000000 1) blankBio in
  (trim (bio blankBio) = [] \/ trim (links blankBio) = []
   \/ truthyOpt (avatar blankBio) = false) /\
  (transforms (trace r) = [] /\
   uploads (trace r) = [] /\
   writes (trace r) = [] /\
   network (trace r) = []) /\
  shown (trace r) = [lit "All fields are required."] /\
  error (final r) = Some (lit "All fields are required.") /\
  loading (final r) = false.
Proof.
  intros r.
  assert (Hmiss : trim (bio blankBio) = [] \/ trim (links blankBio) = []
                  \/ truthyOpt (avatar blankBio) = false)
    by (left; reflexivity).
  split; [exact Hmiss|].
  destruct (missing_field_stops_submission scripted
              (allGood 1690000000000 1) blankBio Hmiss) as [Hnone Hshown].
  split; [exact Hnone|].
  exact (Hshown u1 eq_refl).
Defined.

(** C4. [compressImage] requests exactly two transformations, both of the
    path it was given: the main one resized to width 800 at quality 0.7,
    then the thumbnail resized to width 200 at quality 0.5, both saved as
    JPEG.  The thumbnail request takes the original path, whatever the
    main variant came out as.  When both resolve the result pairs the two
    answers; when either is rejected the function throws, and the second
    request is not made if the first was rejected. *)
Theorem compressImage_two_variants
  (E : Env) (w : World E) (s : State) (uri : jsstring) :
  let mainReq :=
    ManipulateAsync uri [Resize 800]
      {| compress := 7 # 10; save_format := JPEG |} in
  let thumbReq :=
    ManipulateAsync uri [Resize 200]
      {| compress := 5 # 10; save_format := JPEG |} in
  let a1 := respond E mainReq w in
  let a2 := respond E thumbReq (snd a1) in
  let r := run E (compressImage uri) w s in
  match fst a1, fst a2 with
  | Resolved m, Resolved t =>
    trace r = [Ev mainReq (Resolved m); Ev thumbReq (Resolved t)] /\
    exit r = Returned {| main := m; thumbnail := t |}
  | Resolved m, Rejected e =>
    trace r = [Ev mainReq (Resolved m); Ev thumbReq (Rejected e)] /\
    exit r = Threw (newError (lit "Failed to compress image"))
  | Rejected e, _ =>
    trace r = [Ev mainReq (Rejected e)] /\
    exit r = Threw (newError (lit "Failed to compress image"))
  end.
Proof.
  intros mainReq thumbReq a1 a2 r. subst r a2 a1 thumbReq mainReq.
  unfold compressImage. cbn.
  answer. destruct o as [m|e]; cbn.
  - answer. destruct o as [t|e]; cbn; split; reflexivity.
  - split; reflexivity.
Qed.

(** C5, as amended. When either image transformation is rejected the
    submission stops there: no file is read, no upload and no record write
    is issued, and the one message shown is the text the code throws,
    [Failed to compress image] with a capital F; the loading flag is
    reset. *)
Theorem failed_derivation_aborts
  (E : Env) (w : World E) (s : State)
  (u : jsstring) (acts : list Action) (opts : SaveOptions) (e : Thrown) :
  let r := submit E w s in
  In (u, acts, opts, Rejected e) (transforms (trace r)) ->
  network (trace r) = [] /\
  uploads (trace r) = [] /\
  writes (trace r) = [] /\
  shown (trace r) = [lit "Failed to compress image"] /\
  error (final r) = Some (lit "Failed to compress image") /\
  loading (final r) = false.
Proof.
  intros r. subst r. enter s.
  - intros [].
  - explore; intros Hin.
    all: repeat match goal with
         | H : _ \/ _ |- _ => destruct H as [H|H]
         | H : False |- _ => destruct H
         | H : (_, _) = (_, _) |- _ => discriminate H
         end.
    all: repeat split.
  - intros [].
Qed.

Lemma failed_derivation_aborts_witness :
  let r := submit scripted thumbUndecodable filled in
  In (lit "file:///pick.png", [Resize 200],
      {| compress := (5 # 10)%Q; save_format := JPEG |},
      Rejected {| instanceofError := true; message := lit "decode" |})
     (transforms (trace r)) /\
  network (trace r) = [] /\
  uploads (trace r) = [] /\
  writes (trace r) = [] /\
  shown (trace r) = [lit "Failed to compress image"] /\
  error (final r) = Some (lit "Failed to compress image") /\
  loading (final r) = false.
Proof.
  intros r.
  assert (Hin : In (lit "file:///pick.png", [Resize 200],
                    {| compress := (5 # 10)%Q; save_format := JPEG |},
                    Rejected {| instanceofError := true;
                                message := lit "decode" |})
                   (transforms (trace r)))
    by (right; left; reflexivity).
  split; [exact Hin|].
  exact (failed_derivation_aborts scripted thumbUndecodable filled _ _ _ _ Hin).
Defined.

(** C5 as stated fails on the letter case of the message: with the
    thumbnail transformation rejected, nothing goes out, and what is shown
    is not the all-lower-case text of the claim. *)
Lemma lowercase_compress_message_not_shown :
  let r := submit scripted thumbUndecodable filled in
  (exists u acts opts e,
     In (u, acts, opts, Rejected e) (transforms (trace r))) /\
  network (trace r) = [] /\
  shown (trace r) <> [lit "failed to compress image"] /\
  error (final r) <> Some (lit "failed to compress image").
Proof.
  intros r. split; [|split; [reflexivity | split; vm_compute; discriminate]].
  eexists; eexists; eexists; eexists. right; left; reflexivity.
Qed.

(** C6. Whenever a submission issues an upload, it issues exactly two,
    both to the [avatars] bucket: the main variant under
    [<user id>-<timestamp>.jpg] and the thumbnail under
    [<user id>-<timestamp>-thumb.jpg], the two timestamps being the two
    clock reads of the run; only the thumbnail key ends in [-thumb.jpg].
    The two uploads are issued back to back, before either is waited for,
    and the joint wait on both comes next, before any later step. *)
Theorem uploads_keyed_and_joined (E : Env) (w : World E) (s : State) :
  let r := submit E w s in
  uploads (trace r) <> [] ->
  exists before after sess now1 now2 mainBlob thumbBlob p1 p2 settled,
    let mainFileName :=
      id (user sess) ++ lit "-" ++ numberToString now1 ++ lit ".jpg" in
    let thumbFileName :=
      id (user sess) ++ lit "-" ++ numberToString now2 ++ lit "-thumb.jpg" in
    session s = Some sess /\
    clockReads (trace r) = [now1; now2] /\
    trace r
    = before
      ++ [Ev (StorageUpload (lit "avatars") mainFileName mainBlob) p1;
          Ev (StorageUpload (lit "avatars") thumbFileName thumbBlob) p2;
          Ev (PromiseAll p1 p2) settled]
      ++ after /\
    uploads before = [] /\ joins before = [] /\
    uploads after = [] /\ joins after = [] /\
    endsWith (lit "-thumb.jpg") mainFileName = false /\
    endsWith (lit "-thumb.jpg") thumbFileName = true.
Proof.
  intros r Hup.
  exists (firstn 10 (trace r)), (skipn 13 (trace r)).
  revert Hup. subst r. enter s.
  - intros H; exfalso; apply H; reflexivity.
  - explore; intros Hup; try (exfalso; apply Hup; reflexivity).
    all: exists sess; do 7 eexists.
    all: split; [reflexivity|].
    all: split; [reflexivity|].
    all: split; [reflexivity|].
    all: repeat (split; [reflexivity|]).
    all: split; [apply mainFileName_not_thumb | apply thumbFileName_thumb].
  - intros H; exfalso; apply H; reflexivity.
Qed.

Lemma uploads_keyed_and_joined_witness :
  let r := submit scripted (allGood 1690000000000 7) filled in
  uploads (trace r) <> [] /\
  exists before after sess now1 now2 mainBlob thumbBlob p1 p2 settled,
    let mainFileName :=
      id (user sess) ++ lit "-" ++ numberToString now1 ++ lit ".jpg" in
    let thumbFileName :=
      id (user sess) ++ lit "-" ++ numberToString now2 ++ lit "-thumb.jpg" in
    session filled = Some sess /\
    clockReads (trace r) = [now1; now2] /\
    trace r
    = before
      ++ [Ev (StorageUpload (lit "avatars") mainFileName mainBlob) p1;
          Ev (StorageUpload (lit "avatars") thumbFileName thumbBlob) p2;
          Ev (PromiseAll p1 p2) settled]
      ++ after /\
    uploads before = [] /\ joins before = [] /\
    uploads after = [] /\ joins after = [] /\
    endsWith (lit "-thumb.jpg") mainFileName = false /\
    endsWith (lit "-thumb.jpg") thumbFileName = true.
Proof.
  intros r.
  assert (Hup : uploads (trace r) <> []) by (vm_compute; discriminate).
  split; [exact Hup|].
  exact (uploads_keyed_and_joined scripted (allGood 1690000000000 7) filled Hup).
Defined.

(** C7. When both uploads have succeeded and the record write then fails,
    by rejection or by a reported error, the run contains no storage
    delete call: the two uploads stand as issued.  The handler shows the
    text of the write's error and resets the loading flag. *)
Theorem failed_write_keeps_uploads
  (E : Env) (w : World E) (s : State) (a b : UploadResult) (e : Thrown) :
  let r := submit E w s in
  joins (trace r) = [Resolved (a, b)] ->
  upload_error a = None ->
  upload_error b = None ->
  List.map writeFailure (writeOutcomes (trace r)) = [Some e] ->
  removals (trace r) = [] /\
  List.length (uploads (trace r)) = 2%nat /\
  shown (trace r) = [errorText e] /\
  error (final r) = Some (errorText e) /\
  loading (final r) = false.
Proof.
  intros r Hj Ha Hb Hw.
  split.
  { apply no_remove_call_no_removal, Always_run, handleSubmit_never_removes. }
  revert Hj Hw. subst r. enter s; try discriminate.
  explore; intros Hj Hw; try discriminate.
  all: injection Hj as <- <-; try congruence.
  all: cbn in Hw; injection Hw as Hw; try congruence.
  all: try (rewrite Hw in *; discriminate).
  all: repeat match goal with
       | H1 : ?x = Some ?u, H2 : ?x = Some ?v |- _ =>
         rewrite H1 in H2; injection H2 as ->
       end.
  all: subst; repeat split.
Qed.

Lemma failed_write_keeps_uploads_witness :
  let r := submit scripted writeFails filled in
  let e := {| instanceofError := false; message := lit "permission denied" |} in
  joins (trace r) = [Resolved (uploadOk, uploadOk)] /\
  List.map writeFailure (writeOutcomes (trace r)) = [Some e] /\
  removals (trace r) = [] /\
  List.length (uploads (trace r)) = 2%nat /\
  shown (trace r) = [lit "An error occurred."] /\
  error (final r) = Some (lit "An error occurred.") /\
  loading (final r) = false.
Proof.
  intros r e.
  split; [reflexivity|]. split; [reflexivity|].
  apply (@failed_write_keeps_uploads scripted writeFails filled
           uploadOk uploadOk e); reflexivity.
Defined.

(** C9. Every record write of a submission carries the [bio] and [links]
    strings exactly as the screen holds them: nothing is trimmed on the
    way, the trimmed copies serve the validation test only. *)
Theorem write_keeps_text_untrimmed
  (E : Env) (w : World E) (s : State)
  (table : jsstring) (v : ProfileUpdate) (i : jsstring) :
  In (table, v, i) (writes (trace (submit E w s))) ->
  upd_bio v = bio s /\ upd_links v = links s.
Proof.
  apply verbatim_calls_verbatim_writes.
  apply Always_run, handleSubmit_writes_verbatim.
Qed.

Lemma write_keeps_text_untrimmed_witness :
  In (lit "users", paddedRecord, lit "u1")
     (writes (trace (submit scripted (allGood 1690000000000 1) padded))) /\
  upd_bio paddedRecord = lit "  Hello " /\
  upd_links paddedRecord = lit " https://x.com  " /\
  trim (lit "  Hello ") = lit "Hello" /\
  trim (lit " https://x.com  ") = lit "https://x.com".
Proof.
  assert (Hin : In (lit "users", paddedRecord, lit "u1")
                   (writes (trace (submit scripted
                                     (allGood 1690000000000 1) padded))))
    by (left; reflexivity).
  split; [exact Hin|].
  destruct (write_keeps_text_untrimmed scripted (allGood 1690000000000 1)
              padded _ _ _ Hin) as [Hb Hl].
  split; [exact Hb|]. split; [exact Hl|]. split; reflexivity.
Defined.

(** C10. The clock is read once per key: in every submission that issues
    uploads there are exactly two clock reads, the first printed into the
    main key and the second into the thumbnail key.  The two reads need
    not agree: there is a run in which they differ, so that the thumbnail
    key is not the main key with [-thumb] put before its extension. *)
Theorem timestamps_read_per_key :
  (forall (E : Env) (w : World E) (s : State),
     let r := submit E w s in
     uploads (trace r) <> [] ->
     exists sess now1 now2 mainBlob thumbBlob,
       session s = Some sess /\
       clockReads (trace r) = [now1; now2] /\
       uploads (trace r)
       = [(lit "avatars",
           id (user sess) ++ lit "-" ++ numberToString now1 ++ lit ".jpg",
           mainBlob);
          (lit "avatars",
           id (user sess) ++ lit "-" ++ numberToString now2
             ++ lit "-thumb.jpg",
           thumbBlob)]) /\
  (exists (E : Env) (w : World E) (s : State)
          sess now1 now2 mainBlob thumbBlob,
     let r := submit E w s in
     let stem := id (user sess) ++ lit "-" ++ numberToString now1 in
     let thumbFileName :=
       id (user sess) ++ lit "-" ++ numberToString now2 ++ lit "-thumb.jpg" in
     session s = Some sess /\
     clockReads (trace r) = [now1; now2] /\
     uploads (trace r)
     = [(lit "avatars", stem ++ lit ".jpg", mainBlob);
        (lit "avatars", thumbFileName, thumbBlob)] /\
     now1 <> now2 /\
     thumbFileName <> stem ++ lit "-thumb.jpg").
Proof.
  split.
  - intros E w s r. subst r. enter s.
    + intros H; exfalso; apply H; reflexivity.
    + explore; intros Hup; try (exfalso; apply Hup; reflexivity).
      all: exists sess; do 4 eexists.
      all: repeat split.
    + intros H; exfalso; apply H; reflexivity.
  - exists scripted, (allGood 1690000000000 7), filled, u1,
      1690000000000, 1690000000007.
    do 2 eexists. cbv zeta.
    split; [reflexivity|]. split; [reflexivity|].
    split; [rewrite <- !app_assoc; reflexivity|].
    split; [discriminate|].
    vm_compute. discriminate.
Qed.

Lemma timestamps_read_per_key_witness :
  let r := submit scripted (allGood 1690000000000 7) filled in
  uploads (trace r) <> [] /\
  exists sess now1 now2 mainBlob thumbBlob,
    session filled = Some sess /\
    clockReads (trace r) = [now1; now2] /\
    uploads (trace r)
    = [(lit "avatars",
        id (user sess) ++ lit "-" ++ numberToString now1 ++ lit ".jpg",
        mainBlob);
       (lit "avatars",
        id (user sess) ++ lit "-" ++ numberToString now2 ++ lit "-thumb.jpg",
        thumbBlob)].
Proof.
  intros r.
  assert (Hup : uploads (trace r) <> []) by (vm_compute; discriminate).
  split; [exact Hup|].
  exact (proj1 timestamps_read_per_key scripted
           (allGood 1690000000000 7) filled Hup).
Defined.


(** * The other handlers *)

Import Flow.
Import Entry.

(** Name the backend's answer to the next operation. *)
Ltac replied :=
  match goal with
  | |- context [reply ?B ?o ?w] =>
    is_var w;
    let x := fresh "x" in
    let w' := fresh "w" in
    let Hx := fresh "Hx" in
    destruct (reply B o w) as [x w'] eqn:Hx; cbn [fst snd]
  end.

Ltac units := repeat match goal with u : unit |- _ => destruct u end.

Lemma state_eta (s : State) :
  {| session := session s; bio := bio s; links := links s;
     avatar := avatar s; loading := loading s; error := error s |} = s.
Proof. destruct s; reflexivity. Qed.

(** X1. [loadProfileData] never throws, whatever the record client
    does: it issues exactly one select, on [users], of the three columns,
    filtered by the id it was given; a failure is logged once to the
    console and nowhere else.  It never redirects and never touches the
    session, the loading flag or the error message. *)
Theorem loadProfileData_contained
  (B : Backend) (w : Store B) (s : State) (userId : jsstring) :
  let r := exec B (loadProfileData userId) w s in
  ended r = Returned tt /\
  session (cellsAfter r) = session s /\
  loading (cellsAfter r) = loading s /\
  error (cellsAfter r) = error s /\
  redirects (did r) = [] /\
  alerts (did r) = [] /\
  exists o,
    selects (did r) = [(lit "users", lit "bio, links, avatar", userId, o)] /\
    logged (did r)
    = match selectFailure o with
      | Some e => [(lit "Error loading profile:", e)]
      | None => []
      end.
Proof.
  intros r. subst r. unfold loadProfileData. cbn.
  replied. destruct x as [res|e]; cbn.
  - destruct (sel_error res) as [e|] eqn:He; cbn.
    + replied. units. repeat split.
      eexists. split; [reflexivity|]. cbn. rewrite He. reflexivity.
    + destruct (sel_data res) as [data|] eqn:Hd; cbn.
      * replied. replied.
        destruct (truthyOpt (avatarUrl data)) eqn:Ht.
        -- destruct (avatarUrl data) as [u|]; [|discriminate]. cbn.
           replied. units. repeat split.
           eexists. split; [reflexivity|]. cbn. rewrite He. reflexivity.
        -- cbn. repeat split.
           eexists. split; [reflexivity|]. cbn. rewrite He. reflexivity.
      * repeat split.
        eexists. split; [reflexivity|]. cbn. rewrite He. reflexivity.
  - replied. units. repeat split.
    eexists. split; [reflexivity|]. reflexivity.
Qed.

(** X2. What a profile load leaves in the cells.  If the select produced a
    row, [bio] and [links] hold the row's text, a null column becoming the
    empty string, and [avatar] holds the stored url when there is a
    non-empty one; a row without one leaves the avatar cell as it was.  If
    the select produced no row (rejection, reported error, or no data), no
    cell changes. *)
Theorem loadProfileData_fills_cells
  (B : Backend) (w : Store B) (s : State) (userId : jsstring) :
  let r := exec B (loadProfileData userId) w s in
  exists t c i o,
    selects (did r) = [(t, c, i, o)] /\
    match rowOf o with
    | Some row =>
      bio (cellsAfter r)
      = match row_bio row with Some v => v | None => [] end /\
      links (cellsAfter r)
      = match row_links row with Some v => v | None => [] end /\
      avatar (cellsAfter r)
      = match avatarUrl row with
        | Some (c0 :: u) => Some (c0 :: u)
        | _ => avatar s
        end
    | None => cellsAfter r = s
    end.
Proof.
  intros r. subst r. unfold loadProfileData. cbn.
  assert (Hor : forall v, orEmpty v
                          = match v with Some t => t | None => [] end).
  { intros [[|c0 t]|]; reflexivity. }
  replied. destruct x as [res|e]; cbn.
  - destruct (sel_error res) as [e|] eqn:He; cbn.
    + do 4 eexists. split; [reflexivity|].
      cbn. rewrite He. reflexivity.
    + destruct (sel_data res) as [data|] eqn:Hd; cbn.
      * destruct (avatarUrl data) as [[|c0 u]|] eqn:Hu; cbn;
          do 4 eexists; (split; [reflexivity|]);
          cbn; rewrite He, Hd, Hu, !Hor; repeat split.
      * do 4 eexists. split; [reflexivity|].
        cbn. rewrite He, Hd. reflexivity.
  - do 4 eexists. split; [reflexivity|]. reflexivity.
Qed.

(** X3. [checkSession] never throws.  If the session read produced a
    session, the session cell holds it, the profile is requested for that
    session's user id, and there is no redirect, even when the profile
    load fails.  If it produced none (rejection, reported error, or no
    session), the cells are untouched, no profile is requested, and there
    is exactly one redirect, to [/auth]. *)
Theorem checkSession_redirects_without_session
  (B : Backend) (w : Store B) (s : State) :
  let r := exec B checkSession w s in
  ended r = Returned tt /\
  exists o,
    sessionReads (did r) = [o] /\
    match sessionOf o with
    | Some sess =>
      session (cellsAfter r) = Some sess /\
      redirects (did r) = [] /\
      exists so,
        selects (did r)
        = [(lit "users", lit "bio, links, avatar", id (user sess), so)]
    | None =>
      cellsAfter r = s /\
      selects (did r) = [] /\
      redirects (did r) = [lit "/auth"]
    end.
Proof.
  intros r. subst r. unfold checkSession, loadProfileData. cbn.
  replied. destruct x as [res|e]; cbn.
  - destruct (gs_error res) as [e|] eqn:He; cbn.
    + replied. replied. units. split; [reflexivity|].
      eexists. split; [reflexivity|]. cbn. rewrite He. repeat split.
    + destruct (gs_session res) as [sess|] eqn:Hs; cbn.
      * replied. replied.
        assert (Hso : sessionOf (Resolved res) = Some sess)
          by (cbn; rewrite He; exact Hs).
        destruct x0 as [sel|e]; cbn.
        -- destruct (sel_error sel) as [e|]; cbn.
           ++ replied. units. split; [reflexivity|].
              eexists. split; [reflexivity|]. rewrite Hso.
              repeat split. eexists. reflexivity.
           ++ destruct (sel_data sel) as [data|]; cbn.
              ** replied. replied.
                 destruct (truthyOpt (avatarUrl data)).
                 --- destruct (avatarUrl data); cbn.
                     +++ replied. units. split; [reflexivity|].
                         eexists. split; [reflexivity|]. rewrite Hso.
                         repeat split. eexists. reflexivity.
                     +++ split; [reflexivity|].
                         eexists. split; [reflexivity|]. rewrite Hso.
                         repeat split. eexists. reflexivity.
                 --- cbn. split; [reflexivity|].
                     eexists. split; [reflexivity|]. rewrite Hso.
                     repeat split. eexists. reflexivity.
              ** split; [reflexivity|].
                 eexists. split; [reflexivity|]. rewrite Hso.
                 repeat split. eexists. reflexivity.
        -- replied. units. split; [reflexivity|].
           eexists. split; [reflexivity|]. rewrite Hso.
           repeat split. eexists. reflexivity.
      * replied. units. split; [reflexivity|].
        eexists. split; [reflexivity|]. cbn. rewrite He, Hs. repeat split.
  - replied. replied. units. split; [reflexivity|].
    eexists. split; [reflexivity|]. cbn. repeat split.
Qed.

(** X4. [handleImagePicker] never throws and launches the picker exactly
    once, for images, with editing and a square crop.  A pick sets the
    avatar cell to the first asset's path and changes nothing else;
    anything else leaves every cell as it was.  An alert is shown exactly
    when the picker neither handed over a path nor was dismissed: a
    rejection, or a result said not canceled without a first asset. *)
Theorem handleImagePicker_sets_avatar_only
  (B : Backend) (w : Store B) (s : State) :
  let r := exec B handleImagePicker w s in
  ended r = Returned tt /\
  exists o,
    launches (did r)
    = [({| mediaTypes := Images; allowsEditing := true;
           aspect := (1, 1); quality := 1 |}, o)] /\
    match pickedOf o with
    | Some uri =>
      cellsAfter r = setAvatar uri s /\ alerts (did r) = []
    | None =>
      cellsAfter r = s /\
      alerts (did r)
      = if dismissed o then []
        else [(lit "Error", lit "Failed to pick image")]
    end.
Proof.
  intros r. subst r. unfold handleImagePicker. cbn.
  replied. destruct x as [res|e]; cbn.
  - destruct (canceled res) eqn:Hc; cbn.
    + split; [reflexivity|]. eexists. split; [reflexivity|].
      cbn. rewrite Hc. split; reflexivity.
    + destruct (assets res) as [[|first rest]|] eqn:Ha; cbn.
      * replied. units. split; [reflexivity|].
        eexists. split; [reflexivity|]. cbn. rewrite Hc, Ha.
        split; reflexivity.
      * replied. units. split; [reflexivity|].
        eexists. split; [reflexivity|]. cbn. rewrite Hc, Ha.
        split; reflexivity.
      * replied. units. split; [reflexivity|].
        eexists. split; [reflexivity|]. cbn. rewrite Hc, Ha.
        split; reflexivity.
  - replied. units. split; [reflexivity|].
    eexists. split; [reflexivity|]. cbn. split; reflexivity.
Qed.

(** * More on [handleSubmit] *)

(** X5. [handleSubmit] never throws, whatever fails inside it, and it
    never changes the session, the two text cells or the picked path: only
    the loading flag and the error message are its to set. *)
Theorem handleSubmit_never_throws (E : Env) (w : World E) (s : State) :
  let r := submit E w s in
  exit r = Returned tt /\
  session (final r) = session s /\
  bio (final r) = bio s /\
  links (final r) = links s /\
  avatar (final r) = avatar s.
Proof.
  intros r. subst r. enter s.
  - repeat answer. units. repeat split; assumption.
  - explore; units; repeat split; assumption.
  - repeat answer. units. repeat split; assumption.
Qed.

(** X6. How a submission ends.  Without a session it shows nothing, goes
    nowhere forward and leaves every cell as it was.  With one, the
    loading flag ends reset, and either the handler navigated to [/dash],
    once, showed no message and left the error cell empty, or it did not
    navigate, showed exactly one message and left that message in the
    error cell: whatever message the cell held before is gone. *)
Theorem submit_navigates_or_reports (E : Env) (w : World E) (s : State) :
  let r := submit E w s in
  match session s with
  | None => final r = s /\ shown (trace r) = [] /\ pushes (trace r) = []
  | Some _ =>
    loading (final r) = false /\
    ((pushes (trace r) = [lit "/dash"] /\
      shown (trace r) = [] /\ error (final r) = None) \/
     (pushes (trace r) = [] /\
      exists m, shown (trace r) = [m] /\ error (final r) = Some m))
  end.
Proof.
  intros r. subst r. enter s.
  - split; [reflexivity|]. right. split; [reflexivity|].
    eexists. split; reflexivity.
  - explore.
    all: split; [reflexivity|].
    all: first [ left; repeat split; reflexivity
               | right; split; [reflexivity|];
                 eexists; split; reflexivity ].
  - repeat split.
Qed.

(** X7. A record write is all or nothing about the picture: every write a
    submission makes is the only one of its run, goes to [users] filtered
    by the session's user id, and carries an avatar that is never null,
    with format [jpeg] and, as size, the size of the first blob read (the
    main variant's). *)
Theorem write_carries_full_avatar
  (E : Env) (w : World E) (s : State)
  (table : jsstring) (v : ProfileUpdate) (i : jsstring) :
  let r := submit E w s in
  In (table, v, i) (writes (trace r)) ->
  writes (trace r) = [(table, v, i)] /\
  exists sess d res mainBlob rest,
    session s = Some sess /\
    table = lit "users" /\
    i = id (user sess) /\
    upd_avatar v = Some d /\
    format (metadata d) = lit "jpeg" /\
    blobReads (trace r) = (res, Resolved mainBlob) :: rest /\
    size (metadata d) = blob_size mainBlob.
Proof.
  intros r. subst r. enter s.
  - intros [].
  - explore; intros Hin;
      repeat match goal with
             | H : _ \/ _ |- _ => destruct H as [H|H]
             | H : False |- _ => destruct H
             | H : In _ [] |- _ => destruct H
             end.
    all: injection Hin as <- <- <-.
    all: split; [reflexivity|].
    all: exists sess; do 4 eexists; repeat split.
  - intros [].
Qed.

Lemma write_carries_full_avatar_witness :
  let r := submit scripted (allGood 1690000000000 1) padded in
  In (lit "users", paddedRecord, lit "u1") (writes (trace r)) /\
  writes (trace r) = [(lit "users", paddedRecord, lit "u1")] /\
  exists sess d res mainBlob rest,
    session padded = Some sess /\
    lit "users" = lit "users" /\
    lit "u1" = id (user sess) /\
    upd_avatar paddedRecord = Some d /\
    format (metadata d) = lit "jpeg" /\
    blobReads (trace r) = (res, Resolved mainBlob) :: rest /\
    size (metadata d) = blob_size mainBlob.
Proof.
  intros r.
  assert (Hin : In (lit "users", paddedRecord, lit "u1") (writes (trace r)))
    by (left; reflexivity).
  split; [exact Hin|].
  exact (write_carries_full_avatar scripted (allGood 1690000000000 1)
           padded _ _ _ Hin).
Defined.

(** X8. What is uploaded is what was derived.  Whenever a submission
    issues uploads, both transformations had resolved, the two files read
    were the main variant's and then the thumbnail's, each read once, and
    the two upload bodies are the two blobs so read, in that order: the
    thumbnail key receives the thumbnail's bytes. *)
Theorem uploads_carry_the_derived_files
  (E : Env) (w : World E) (s : State) :
  let r := submit E w s in
  uploads (trace r) <> [] ->
  exists m t mainResponse thumbResponse mainBlob thumbBlob,
    List.map snd (transforms (trace r)) = [Resolved m; Resolved t] /\
    fetches (trace r)
    = [(ir_uri m, Resolved mainResponse);
       (ir_uri t, Resolved thumbResponse)] /\
    blobReads (trace r)
    = [(mainResponse, Resolved mainBlob);
       (thumbResponse, Resolved thumbBlob)] /\
    List.map snd (uploads (trace r)) = [mainBlob; thumbBlob].
Proof.
  intros r. subst r. enter s.
  - intros H; exfalso; apply H; reflexivity.
  - explore; intros Hup; try (exfalso; apply Hup; reflexivity).
    all: do 6 eexists; repeat split.
  - intros H; exfalso; apply H; reflexivity.
Qed.

Lemma uploads_carry_the_derived_files_witness :
  let r := submit scripted (allGood 1690000000000 7) filled in
  uploads (trace r) <> [] /\
  exists m t mainResponse thumbResponse mainBlob thumbBlob,
    List.map snd (transforms (trace r)) = [Resolved m; Resolved t] /\
    fetches (trace r)
    = [(ir_uri m, Resolved mainResponse);
       (ir_uri t, Resolved thumbResponse)] /\
    blobReads (trace r)
    = [(mainResponse, Resolved mainBlob);
       (thumbResponse, Resolved thumbBlob)] /\
    List.map snd (uploads (trace r)) = [mainBlob; thumbBlob].
Proof.
  intros r.
  assert (Hup : uploads (trace r) <> []) by (vm_compute; discriminate).
  split; [exact Hup|].
  exact (uploads_carry_the_derived_files scripted
           (allGood 1690000000000 7) filled Hup).
Defined.

(** X9. A half-failed upload is left where it is.  When the joint wait
    resolves and either upload reports an error, both uploads had been
    issued, and the handler then resolves no public URL, writes no record,
    deletes nothing from storage and does not navigate. *)
Theorem failed_upload_is_not_rolled_back
  (E : Env) (w : World E) (s : State) (a b : UploadResult) :
  let r := submit E w s in
  joins (trace r) = [Resolved (a, b)] ->
  upload_error a <> None \/ upload_error b <> None ->
  List.length (uploads (trace r)) = 2%nat /\
  resolutions (trace r) = [] /\
  writes (trace r) = [] /\
  removals (trace r) = [] /\
  pushes (trace r) = [].
Proof.
  intros r Hj Herr.
  assert (Hrm : removals (trace r) = [])
    by (apply no_remove_call_no_removal, Always_run,
          handleSubmit_never_removes).
  revert Hj Herr Hrm. subst r. enter s; try discriminate.
  explore; intros Hj Herr Hrm; try discriminate.
  all: injection Hj as <- <-.
  all: try (destruct Herr as [Herr|Herr]; congruence).
  all: repeat split; assumption.
Qed.

Lemma failed_upload_is_not_rolled_back_witness :
  let r := submit scripted thumbUploadFails filled in
  joins (trace r) = [Resolved (uploadOk, uploadFailed "quota exceeded")] /\
  List.length (uploads (trace r)) = 2%nat /\
  resolutions (trace r) = [] /\
  writes (trace r) = [] /\
  removals (trace r) = [] /\
  pushes (trace r) = [].
Proof.
  intros r. split; [reflexivity|].
  apply (@failed_upload_is_not_rolled_back scripted thumbUploadFails filled
           uploadOk (uploadFailed "quota exceeded")).
  - reflexivity.
  - right. discriminate.
Defined.

(** ** Validation *)

Lemma trimStart_nil_iff s :
  trimStart s = [] <-> forallb isWhiteSpace s = true.
Proof.
  induction s as [|c r IH]; cbn.
  - split; reflexivity.
  - destruct (isWhiteSpace c); cbn.
    + exact IH.
    + split; discriminate.
Qed.

Lemma trimStart_keeps_blackness s :
  forallb isWhiteSpace (trimStart s) = forallb isWhiteSpace s.
Proof.
  induction s as [|c r IH]; cbn; [reflexivity|].
  destruct (isWhiteSpace c) eqn:Hc; cbn.
  - exact IH.
  - rewrite Hc. reflexivity.
Qed.

Lemma forallb_rev {T} (f : T -> bool) l : forallb f (rev l) = forallb f l.
Proof.
  induction l as [|a l IH]; cbn; [reflexivity|].
  rewrite forallb_app, IH. cbn. rewrite andb_true_r. apply andb_comm.
Qed.

(** Trimming leaves nothing exactly when every code unit is white space. *)
Lemma trim_nil_iff s : trim s = [] <-> forallb isWhiteSpace s = true.
Proof.
  unfold trim, trimEnd.
  rewrite <- (trimStart_keeps_blackness s), <- (forallb_rev _ (trimStart s)).
  rewrite <- trimStart_nil_iff.
  split; intros H.
  - apply (f_equal (@rev N)) in H. rewrite rev_involutive in H. exact H.
  - rewrite H. reflexivity.
Qed.

Lemma truthy_trim_iff s :
  truthy (trim s) = true <-> exists c, In c s /\ isWhiteSpace c = false.
Proof.
  split.
  - intros Ht.
    assert (Hn : forallb isWhiteSpace s <> true).
    { intros Hall. apply trim_nil_iff in Hall. rewrite Hall in Ht.
      discriminate. }
    induction s as [|c r IH]; cbn in Hn; [congruence|].
    destruct (isWhiteSpace c) eqn:Hc.
    + cbn in Hn. destruct (truthy (trim r)) eqn:Hr.
      * destruct (IH eq_refl Hn) as [c' [Hin Hc']].
        exists c'. split; [right; exact Hin | exact Hc'].
      * assert (Hnil : trim r = []) by (destruct (trim r); [reflexivity | discriminate]).
        apply trim_nil_iff in Hnil. congruence.
    + exists c. split; [left; reflexivity | exact Hc].
  - intros [c [Hin Hc]].
    destruct (trim s) eqn:Ht; [|reflexivity].
    apply trim_nil_iff in Ht. rewrite forallb_forall in Ht.
    rewrite (Ht c Hin) in Hc. discriminate.
Qed.

(** X10. The validation test of line 153 passes exactly when the bio holds
    at least one code unit that is not white space, the links text holds
    one too, and a non-empty path is picked. *)
Theorem validation_passes_iff (s : State) :
  missingField s = false <->
  (exists c, In c (bio s) /\ isWhiteSpace c = false) /\
  (exists c, In c (links s) /\ isWhiteSpace c = false) /\
  (exists a, avatar s = Some a /\ a <> []).
Proof.
  unfold missingField.
  rewrite <- !truthy_trim_iff.
  split.
  - intros H. apply orb_false_elim in H. destruct H as [H Hl].
    apply orb_false_elim in H. destruct H as [Hb Ha].
    apply negb_false_iff in Hb, Ha, Hl.
    repeat split; try assumption.
    destruct (avatar s) as [a|]; [|discriminate].
    exists a. split; [reflexivity|]. intros ->. discriminate.
  - intros [Hb [Hl [a [Ha Hne]]]].
    rewrite Hb, Hl, Ha. destruct a; [contradiction|reflexivity].
Qed.

(** * More on the screen as a machine *)

Lemma Frees_finally_release A (p : Prog A) :
  Always notSetLoading p -> Frees (finally p (call (SetLoading false))).
Proof.
  induction 1 as [a|e|X c k Hc Hk IH]; cbn.
  - apply FreesRelease. intros; constructor.
  - apply FreesRelease. intros; constructor.
  - apply FreesVis; assumption.
Qed.

(** [handleSubmit] either only redirects, or raises the flag first and is
    then bound to lower it. *)
Lemma handleSubmit_frees s :
  Winds (handleSubmit s) \/
  exists k, handleSubmit s = Vis (SetLoading true) k /\ forall x, Frees (k x).
Proof.
  unfold handleSubmit. destruct (session s) as [sess|].
  - right. cbn. eexists. split; [reflexivity|]. intros x. cbn.
    apply FreesVis; [exact I|]. intros y.
    destruct (missingField s); cbn.
    + apply FreesVis; [exact I|]. intros z.
      apply FreesRelease. intros; constructor.
    + apply Frees_finally_release. apply Always_try_catch.
      * apply submitBody_leaves_loading.
      * intro. apply Always_call. exact I.
  - left. constructor; [reflexivity | exact I | intros; constructor].
Qed.

Section FreeingFacts.

Variable E : Env.

Lemma Winds_advance p (w : World E) s :
  Winds p -> wound (loading s) (advance E p w s).
Proof.
  intros Hp. revert w s.
  induction Hp as [a|e|X c k Hc Hn Hk IH]; intros w s; cbn;
    try reflexivity.
  rewrite Hc.
  specialize (IH (fst (respond E c w)) (snd (respond E c w)) (applySet c s)).
  rewrite (notSetLoading_loading c s Hn) in IH.
  destruct (advance E _ _ _) as [[[q w'] s'] t]. exact IH.
Qed.

Lemma Frees_advance p (w : World E) s :
  Frees p -> loading s = true -> freed (advance E p w s).
Proof.
  intros Hp. revert w s.
  induction Hp as [k Hk|X c k Hc Hk IH]; intros w s Hl; cbn.
  - pose proof (Winds_advance (snd (respond E (SetLoading false) w))
                  (applySet (SetLoading false) s)
                  (Hk (fst (respond E (SetLoading false) w)))) as Hq.
    destruct (advance E _ _ _) as [[[q w'] s'] t].
    destruct q; [contradiction | exact Hq].
  - destruct (isAwaited c).
    + cbn. split; [assumption | apply FreesVis; assumption].
    + assert (Hl' : loading (applySet c s) = true)
        by (rewrite notSetLoading_loading; assumption).
      specialize (IH (fst (respond E c w)) (snd (respond E c w)) _ Hl').
      destruct (advance E _ _ _) as [[[q w'] s'] t]. exact IH.
Qed.

Lemma Frees_resume p (w : World E) s :
  Frees p -> loading s = true -> freed (resume E p w s).
Proof.
  intros Hp Hl. destruct Hp as [k Hk|X c k Hc Hk]; cbn.
  - pose proof (Winds_advance (snd (respond E (SetLoading false) w))
                  (applySet (SetLoading false) s)
                  (Hk (fst (respond E (SetLoading false) w)))) as Hq.
    destruct (advance E _ _ _) as [[[q w'] s'] t].
    destruct q; [contradiction | exact Hq].
  - assert (Hl' : loading (applySet c s) = true)
      by (rewrite notSetLoading_loading; assumption).
    pose proof (Frees_advance (snd (respond E c w)) (applySet c s)
                  (Hk (fst (respond E c w))) Hl') as Hq.
    destruct (advance E _ _ _) as [[[q w'] s'] t]. exact Hq.
Qed.

Lemma react_idleOrBusy i (m : Screen (World E)) :
  idleOrBusy m -> idleOrBusy (react E i m).
Proof.
  intros Hm. destruct i; cbn.
  - unfold render. destruct (session (cells m)) eqn:Hs; [|exact Hm]. cbn.
    destruct (loading (cells m)) eqn:Hl; [exact Hm|].
    destruct Hm as [[Hp _] | [p [_ [Hl' _]]]]; [|congruence].
    unfold onPress.
    destruct (handleSubmit_frees (cells m)) as [Hw | [k [Hk Hf]]].
    + pose proof (Winds_advance (outside m) (cells m) Hw) as Hq.
      destruct (advance E _ _ _) as [[[q w'] s'] t].
      destruct q; [contradiction|]. cbn in Hq. rewrite Hp. cbn.
      left. split; [reflexivity | cbn; congruence].
    + rewrite Hk. cbn.
      pose proof (Frees_advance
                    (snd (respond E (SetLoading true) (outside m)))
                    (applySet (SetLoading true) (cells m))
                    (Hf (fst (respond E (SetLoading true) (outside m))))
                    eq_refl) as Hq.
      destruct (advance E _ _ _) as [[[q w'] s'] t]. rewrite Hp. cbn.
      destruct q as [p|]; cbn in Hq.
      * right. exists p. tauto.
      * left. split; [reflexivity | exact Hq].
  - destruct Hm as [[Hp Hl] | [p [Hp [Hl Hf]]]]; rewrite Hp.
    + destruct i; cbn; left; split; assumption.
    + destruct i as [|i]; cbn.
      * pose proof (Frees_resume (outside m) (cells m) Hf Hl) as Hq.
        destruct (resume E _ _ _) as [[[q w'] s'] t]. cbn.
        destruct q as [p'|]; cbn in Hq.
        -- right. exists p'. tauto.
        -- left. split; [reflexivity | exact Hq].
      * destruct i; cbn; right; exists p; auto.
  - destruct Hm as [[Hp Hl] | [p [Hp [Hl Hf]]]];
      [left; split; assumption | right; exists p; auto].
  - destruct Hm as [[Hp Hl] | [p [Hp [Hl Hf]]]];
      [left; split; assumption | right; exists p; auto].
  - destruct Hm as [[Hp Hl] | [p [Hp [Hl Hf]]]];
      [left; split; assumption | right; exists p; auto].
  - destruct Hm as [[Hp Hl] | [p [Hp [Hl Hf]]]];
      [left; split; assumption | right; exists p; auto].
Qed.

Lemma reactAll_idleOrBusy inputs (m : Screen (World E)) :
  idleOrBusy m -> idleOrBusy (reactAll E inputs m).
Proof.
  revert m. induction inputs as [|i inputs IH]; intros m Hm; cbn.
  - exact Hm.
  - apply IH, react_idleOrBusy, Hm.
Qed.

End FreeingFacts.

(** X11. On a screen mounted with the loading flag down, whatever happens
    next, the submit button is disabled exactly while a [handleSubmit] is
    suspended: it is never left disabled once the handler has finished,
    on any path, and never enabled while one is in flight. *)
Theorem button_disabled_exactly_in_flight
  (E : Env) (w0 : World E) (s0 : State) (inputs : list Input) :
  loading s0 = false ->
  let m := reactAll E inputs (mounted E s0 w0) in
  (loading (cells m) = true <-> pending m <> []) /\
  forall v, render (cells m) = Some v ->
            (buttonDisabled v = true <-> pending m <> []).
Proof.
  intros Hl m.
  assert (Hm : idleOrBusy m).
  { apply reactAll_idleOrBusy. left. split; [reflexivity | exact Hl]. }
  assert (Hiff : loading (cells m) = true <-> pending m <> []).
  { destruct Hm as [[Hp Hf] | [p [Hp [Ht _]]]]; rewrite Hp.
    - rewrite Hf. split; [discriminate | intros H; contradiction H; reflexivity].
    - rewrite Ht. split; [discriminate | reflexivity]. }
  split; [exact Hiff|].
  intros v Hv. unfold render in Hv.
  destruct (session (cells m)); [|discriminate].
  injection Hv as <-. exact Hiff.
Qed.

Lemma button_disabled_exactly_in_flight_witness :
  let m := reactAll scripted
             (Press :: repeat (Settle 0) 8)
             (mounted scripted filled (allGood 1690000000000 1)) in
  loading filled = false /\
  pending m = [] /\
  (loading (cells m) = true <-> pending m <> []) /\
  forall v, render (cells m) = Some v ->
            (buttonDisabled v = true <-> pending m <> []).
Proof.
  intros m. split; [reflexivity|]. split; [reflexivity|].
  exact (button_disabled_exactly_in_flight scripted
           (allGood 1690000000000 1) filled
           (Press :: repeat (Settle 0) 8) eq_refl).
Defined.

Section SnapshotFacts.

Variable E : Env.
Variable P : forall X, Call X -> Prop.

Lemma Always_advance p (w : World E) s :
  Always P p ->
  let '(q, _, _, t) := advance E p w s in
  Forall (eventCall P) t /\
  match q with Some p' => Always P p' | None => True end.
Proof.
  intros Hp. revert w s.
  induction Hp as [a|e|X c k Hc Hk IH]; intros w s; cbn.
  - split; constructor.
  - split; constructor.
  - destruct (isAwaited c).
    + split; [constructor | constructor; assumption].
    + specialize (IH (fst (respond E c w)) (snd (respond E c w))
                    (applySet c s)).
      destruct (advance E _ _ _) as [[[q w'] s'] t].
      destruct IH as [Ht Hq]. split; [constructor; assumption | exact Hq].
Qed.

Lemma Always_resume p (w : World E) s :
  Always P p ->
  let '(q, _, _, t) := resume E p w s in
  Forall (eventCall P) t /\
  match q with Some p' => Always P p' | None => True end.
Proof.
  intros Hp. destruct Hp as [a|e|X c k Hc Hk]; cbn.
  - split; constructor.
  - split; constructor.
  - pose proof (Always_advance (snd (respond E c w)) (applySet c s)
                  (Hk (fst (respond E c w)))) as IH.
    destruct (advance E _ _ _) as [[[q w'] s'] t].
    destruct IH as [Ht Hq]. split; [constructor; assumption | exact Hq].
Qed.

Lemma Forall_splice {T} (Q : T -> Prop) n (o : option T) l :
  Forall Q l -> match o with Some b => Q b | None => True end ->
  Forall Q (splice n o l).
Proof.
  intros Hl Ho. revert n.
  induction Hl as [|a l Ha Hl IH]; intros n; cbn.
  - destruct n; constructor.
  - destruct n as [|n].
    + destruct o; [constructor|]; assumption.
    + constructor; [assumption | apply IH].
Qed.

End SnapshotFacts.

Section ScreenAlwaysFacts.

Variable E : Env.
Variable P : forall X, Call X -> Prop.
Hypothesis redirect_ok : forall path, P (RouterReplace path).

Lemma react_screenAlways inp (m : Screen (World E)) :
  inp <> Press -> screenAlways P m -> screenAlways P (react E inp m).
Proof.
  intros Hinp [Hj Hp].
  destruct inp; cbn; try (split; assumption).
  - contradiction Hinp; reflexivity.
  - destruct (nth_error (pending m) i) as [p|] eqn:Hn;
      [|split; assumption].
    assert (Hpp : Always P p).
    { apply nth_error_In in Hn. rewrite Forall_forall in Hp.
      exact (Hp p Hn). }
    pose proof (Always_resume E (outside m) (cells m) Hpp) as Hr.
    destruct (resume E _ _ _) as [[[q w'] s'] t].
    destruct Hr as [Ht Hq]. split; cbn.
    + apply Forall_app. split; assumption.
    + apply Forall_splice; assumption.
  - split; [|assumption]. cbn. apply Forall_app. split; [assumption|].
    destruct sess; repeat constructor. apply redirect_ok.
Qed.

Lemma reactAll_screenAlways later (m : Screen (World E)) :
  Forall (fun inp => inp <> Press) later ->
  screenAlways P m -> screenAlways P (reactAll E later m).
Proof.
  intros Hlater. revert m.
  induction Hlater as [|inp later Hinp Hlater IH]; intros m Hm; cbn.
  - exact Hm.
  - apply IH, react_screenAlways; assumption.
Qed.

Lemma press_screenAlways (w0 : World E) s0 :
  Always P (handleSubmit s0) ->
  screenAlways P (react E Press (mounted E s0 w0)).
Proof.
  intros Hh. cbn. destruct (render s0) as [view|]; [|split; constructor].
  destruct (buttonDisabled view); [split; constructor|].
  unfold onPress. cbn.
  pose proof (Always_advance E w0 s0 Hh) as Ha.
  destruct (advance E _ _ _) as [[[q w'] s'] t].
  destruct Ha as [Ht Hq]. split; cbn; [exact Ht|].
  destruct q; constructor; [assumption | constructor].
Qed.

(** After a press on a mounted screen and anything but another press,
    what holds of every call of [handleSubmit] holds of the journal. *)
Lemma pressed_journal_always (w0 : World E) s0 later :
  Always P (handleSubmit s0) ->
  Forall (fun inp => inp <> Press) later ->
  Forall (eventCall P)
    (journal (reactAll E (Press :: later) (mounted E s0 w0))).
Proof.
  intros Hh Hlater.
  change (reactAll E (Press :: later) (mounted E s0 w0))
    with (reactAll E later (react E Press (mounted E s0 w0))).
  exact (proj1 (reactAll_screenAlways Hlater (press_screenAlways w0 s0 Hh))).
Qed.

End ScreenAlwaysFacts.

Lemma handleSubmit_writes_keyed s : Always (writesKeyed s) (handleSubmit s).
Proof.
  unfold handleSubmit, submitBody, uploadAvatar, compressImage.
  destruct (session s) as [sess|] eqn:Hs; always.
  all: cbn; split; [reflexivity|]; exists sess; split;
    [exact Hs | reflexivity].
Qed.

Lemma keyed_calls_keyed_writes s t tbl v i :
  Forall (eventCall (writesKeyed s)) t ->
  In (tbl, v, i) (writes t) ->
  tbl = lit "users" /\ exists sess, session s = Some sess /\ i = id (user sess).
Proof.
  induction 1 as [|e t He Ht IH]; cbn; [contradiction|].
  destruct e as [X c x]. destruct c; cbn in *; try exact IH.
  intros [Heq|Hin]; [|exact (IH Hin)].
  injection Heq as <- _ <-. exact He.
Qed.

(** X12. A submission saves what the screen held when the button was
    pressed.  After a press on a freshly mounted screen, whatever is typed,
    picked, signalled or settled afterwards (anything but another press),
    every record write issued carries the bio and the links text the cells
    held at the press, not what was typed since. *)
Theorem edits_in_flight_not_saved
  (E : Env) (w0 : World E) (s0 : State) (later : list Input)
  (table : jsstring) (v : ProfileUpdate) (i : jsstring) :
  Forall (fun inp => inp <> Press) later ->
  let m := reactAll E (Press :: later) (mounted E s0 w0) in
  In (table, v, i) (writes (journal m)) ->
  upd_bio v = bio s0 /\ upd_links v = links s0.
Proof.
  intros Hlater m. subst m.
  apply verbatim_calls_verbatim_writes.
  apply pressed_journal_always;
    [exact (fun _ => I) | apply handleSubmit_writes_verbatim | exact Hlater].
Qed.

Lemma edits_in_flight_not_saved_witness :
  let later := TypeBio (lit "typed while saving") :: repeat (Settle 0) 8 in
  let m := reactAll scripted (Press :: later)
             (mounted scripted padded (allGood 1690000000000 1)) in
  Forall (fun inp => inp <> Press) later /\
  In (lit "users", paddedRecord, lit "u1") (writes (journal m)) /\
  bio (cells m) = lit "typed while saving" /\
  upd_bio paddedRecord = bio padded /\
  upd_links paddedRecord = links padded.
Proof.
  intros later m.
  assert (Hl : Forall (fun inp => inp <> Press) later)
    by (repeat constructor; discriminate).
  assert (Hin : In (lit "users", paddedRecord, lit "u1") (writes (journal m)))
    by (left; reflexivity).
  split; [exact Hl|]. split; [exact Hin|]. split; [reflexivity|].
  exact (edits_in_flight_not_saved scripted (allGood 1690000000000 1)
           padded _ _ _ Hl Hin).
Defined.

Section AgreementFacts.

Variable E : Env.

Lemma awaitsWithin_mono A (p : Prog A) n n' :
  (n <= n')%nat -> awaitsWithin p n -> awaitsWithin p n'.
Proof.
  revert n n'. induction p as [a|e|X c k IH]; intros n n' Hle; cbn; auto.
  destruct (isAwaited c).
  - destruct n as [|n]; [contradiction|].
    destruct n' as [|n']; [lia|].
    intros H x. apply (IH x n n'); [lia | apply H].
  - intros H x. apply (IH x n n'); [exact Hle | apply H].
Qed.

(** Running to the next await and then running the rest is running. *)
Lemma advance_run p (w : World E) s n :
  awaitsWithin p n ->
  let '(q, w', s', t) := advance E p w s in
  match q with
  | None =>
    final (run E p w s) = s' /\ world (run E p w s) = w' /\
    trace (run E p w s) = t
  | Some p' =>
    isSuspended p' = true /\ awaitsWithin p' n /\
    final (run E p w s) = final (run E p' w' s') /\
    world (run E p w s) = world (run E p' w' s') /\
    trace (run E p w s) = t ++ trace (run E p' w' s')
  end.
Proof.
  revert w s. induction p as [a|e|X c k IH]; intros w s Hn; cbn.
  - repeat split.
  - repeat split.
  - cbn in Hn. destruct (isAwaited c) eqn:Hc.
    + cbn. rewrite Hc. repeat split. exact Hn.
    + specialize (IH (fst (respond E c w)) (snd (respond E c w))
                    (applySet c s) (Hn _)).
      destruct (advance E _ _ _) as [[[q w'] s'] t].
      destruct q as [p'|].
      * destruct IH as [H1 [H2 [H3 [H4 H5]]]].
        repeat split; try assumption. cbn. rewrite H5. reflexivity.
      * destruct IH as [H1 [H2 H3]].
        repeat split; try assumption. cbn. rewrite H3. reflexivity.
Qed.

Lemma resume_run p (w : World E) s n :
  isSuspended p = true -> awaitsWithin p (S n) ->
  let '(q, w', s', t) := resume E p w s in
  match q with
  | None =>
    final (run E p w s) = s' /\ world (run E p w s) = w' /\
    trace (run E p w s) = t
  | Some p' =>
    isSuspended p' = true /\ awaitsWithin p' n /\
    final (run E p w s) = final (run E p' w' s') /\
    world (run E p w s) = world (run E p' w' s') /\
    trace (run E p w s) = t ++ trace (run E p' w' s')
  end.
Proof.
  destruct p as [a|e|X c k]; cbn; try discriminate.
  intros Hc Hn. rewrite Hc in Hn.
  pose proof (advance_run (k (fst (respond E c w))) (snd (respond E c w))
                (applySet c s) n (Hn _)) as IH.
  destruct (advance E _ _ _) as [[[q w'] s'] t].
  destruct q as [p'|].
  - destruct IH as [H1 [H2 [H3 [H4 H5]]]].
    repeat split; try assumption. cbn. rewrite H5. reflexivity.
  - destruct IH as [H1 [H2 H3]].
    repeat split; try assumption. cbn. rewrite H3. reflexivity.
Qed.

Lemma settle_idle n (m : Screen (World E)) :
  pending m = [] -> reactAll E (repeat (Settle 0) n) m = m.
Proof.
  intros Hp. induction n as [|n IH]; cbn; [reflexivity|].
  rewrite Hp. cbn. exact IH.
Qed.

(** Settling a suspended handler often enough plays out its run. *)
Lemma settle_all n p (w : World E) s j :
  isSuspended p = true -> awaitsWithin p n ->
  reactAll E (repeat (Settle 0) n)
    {| cells := s; pending := [p]; outside := w; journal := j |}
  = {| cells := final (run E p w s); pending := [];
       outside := world (run E p w s);
       journal := j ++ trace (run E p w s) |}.
Proof.
  revert p w s j. induction n as [|n IH]; intros p w s j Hs Hn.
  - destruct p as [a|e|X c k]; cbn in Hs; try discriminate.
    cbn in Hn. rewrite Hs in Hn. contradiction.
  - cbn [repeat reactAll fold_left react pending nth_error cells outside
         journal].
    pose proof (resume_run p w s n Hs Hn) as Hr.
    destruct (resume E p w s) as [[[q w'] s'] t].
    destruct q as [p'|]; cbn [splice].
    + destruct Hr as [H1 [H2 [H3 [H4 H5]]]].
      fold (reactAll E (repeat (Settle 0) n)
              {| cells := s'; pending := [p']; outside := w';
                 journal := j ++ t |}).
      rewrite (IH p' w' s' (j ++ t) H1 H2), H3, H4, H5, app_assoc.
      reflexivity.
    + destruct Hr as [H1 [H2 H3]].
      fold (reactAll E (repeat (Settle 0) n)
              {| cells := s'; pending := []; outside := w';
                 journal := j ++ t |}).
      rewrite settle_idle by reflexivity.
      rewrite H1, H2, H3. reflexivity.
Qed.

End AgreementFacts.

(** [handleSubmit] awaits at most eight times: two transformations, two
    fetches, two blob reads, the joint wait and the record write. *)
Lemma handleSubmit_awaits_eight s : awaitsWithin (handleSubmit s) 8.
Proof.
  unfold handleSubmit, submitBody, uploadAvatar, compressImage.
  destruct (session s); [|cbn; intros; exact I].
  destruct (missingField s); [cbn; intros; exact I|].
  destruct (avatar s) as [a|]; [destruct (truthy a)|].
  all: repeat (cbn;
         match goal with
         | |- True => exact I
         | |- forall _, _ => intro
         | |- context [match ?x with _ => _ end] => destruct x
         | |- context [let (_, _) := ?x in _] => destruct x
         end).
Qed.

(** X13. The machine and the straight run agree.  On a rendered screen
    with the button enabled, a press followed by eight or more settlements
    of the suspended handler leaves no handler suspended, and the cells,
    the collaborators and the calls issued are exactly those of running
    [handleSubmit] to its end on the state captured at the press. *)
Theorem press_then_settle_is_submit
  (E : Env) (w : World E) (s : State) (n : nat) :
  session s <> None ->
  loading s = false ->
  (8 <= n)%nat ->
  let m := reactAll E (Press :: repeat (Settle 0) n) (mounted E s w) in
  let r := submit E w s in
  pending m = [] /\
  cells m = final r /\
  outside m = world r /\
  journal m = trace r.
Proof.
  intros Hs Hl Hn m r. subst m r. unfold submit.
  change (reactAll E (Press :: repeat (Settle 0) n) (mounted E s w))
    with (reactAll E (repeat (Settle 0) n) (react E Press (mounted E s w))).
  cbn [react mounted cells]. unfold render.
  destruct (session s) as [sess|] eqn:Hsess; [|contradiction Hs; reflexivity].
  cbn [buttonDisabled]. rewrite Hl. unfold onPress.
  cbn -[reactAll advance handleSubmit run].
  assert (Hw : awaitsWithin (handleSubmit s) n)
    by (apply (awaitsWithin_mono _ Hn), handleSubmit_awaits_eight).
  pose proof (advance_run E (handleSubmit s) w s n Hw) as Ha.
  destruct (advance E (handleSubmit s) w s) as [[[q w'] s'] t].
  destruct q as [p'|]; cbn -[reactAll].
  - destruct Ha as [H1 [H2 [H3 [H4 H5]]]].
    rewrite (settle_all E n p' w' s' t H1 H2). cbn.
    rewrite H3, H4, H5. repeat split.
  - destruct Ha as [H1 [H2 H3]].
    rewrite settle_idle by reflexivity. cbn.
    rewrite H1, H2, H3. repeat split.
Qed.

Lemma press_then_settle_is_submit_witness :
  let m := reactAll scripted (Press :: repeat (Settle 0) 8)
             (mounted scripted filled (allGood 1690000000000 7)) in
  let r := submit scripted (allGood 1690000000000 7) filled in
  session filled <> None /\
  loading filled = false /\
  pending m = [] /\
  cells m = final r /\
  outside m = world r /\
  journal m = trace r.
Proof.
  intros m r.
  assert (Hs : session filled <> None) by discriminate.
  split; [exact Hs|]. split; [reflexivity|].
  exact (press_then_settle_is_submit scripted (allGood 1690000000000 7)
           filled Hs eq_refl (le_n 8)).
Defined.

(** X14. A sign-out does not stop a submission in flight.  After a press
    on a freshly mounted screen, whatever is signalled, typed or settled
    afterwards (anything but another press), every record write issued
    goes to [users] filtered by the user id of the session the screen held
    at the press, even when the session cell has changed since. *)
Theorem write_keyed_by_session_at_press
  (E : Env) (w0 : World E) (s0 : State) (later : list Input)
  (table : jsstring) (v : ProfileUpdate) (i : jsstring) :
  Forall (fun inp => inp <> Press) later ->
  let m := reactAll E (Press :: later) (mounted E s0 w0) in
  In (table, v, i) (writes (journal m)) ->
  table = lit "users" /\
  exists sess, session s0 = Some sess /\ i = id (user sess).
Proof.
  intros Hlater m. subst m.
  apply keyed_calls_keyed_writes.
  apply pressed_journal_always;
    [exact (fun _ => I) | apply handleSubmit_writes_keyed | exact Hlater].
Qed.

Lemma write_keyed_by_session_at_press_witness :
  let later := AuthChange None :: repeat (Settle 0) 8 in
  let m := reactAll scripted (Press :: later)
             (mounted scripted padded (allGood 1690000000000 1)) in
  Forall (fun inp => inp <> Press) later /\
  In (lit "users", paddedRecord, lit "u1") (writes (journal m)) /\
  session (cells m) = None /\
  pushes (journal m) = [lit "/dash"] /\
  lit "users" = lit "users" /\
  exists sess, session padded = Some sess /\ lit "u1" = id (user sess).
Proof.
  intros later m.
  assert (Hl : Forall (fun inp => inp <> Press) later)
    by (repeat constructor; discriminate).
  assert (Hin : In (lit "users", paddedRecord, lit "u1") (writes (journal m)))
    by (left; reflexivity).
  split; [exact Hl|]. split; [exact Hin|].
  split; [reflexivity|]. split; [reflexivity|].
  exact (write_keyed_by_session_at_press scripted (allGood 1690000000000 1)
           padded _ _ _ Hl Hin).
Defined.

(** * The handlers together *)

(** A validated submission hands the avatar cell's path to the main
    transformation first. *)
Lemma submit_transforms_avatar (E : Env) (w : World E) s a :
  session s <> None -> missingField s = false -> avatar s = Some a ->
  exists out rest,
    transforms (trace (submit E w s))
    = (a, [Resize 800], {| compress := (7 # 10)%Q; save_format := JPEG |}, out)
      :: rest.
Proof.
  intros Hs Hm Ha. enter s.
  - discriminate.
  - rewrite Ha in Havatar. injection Havatar as <-.
    answer. answer. answer. do 2 eexists. reflexivity.
  - contradiction Hs; reflexivity.
Qed.

(** What a load that produced a row leaves in the three form cells. *)
Lemma loadProfileData_cells
  (B : Backend) (w : Store B) (s : State) (userId : jsstring) :
  let r := exec B (loadProfileData userId) w s in
  exists t c i o,
    selects (did r) = [(t, c, i, o)] /\
    session (cellsAfter r) = session s /\
    loading (cellsAfter r) = loading s /\
    match rowOf o with
    | Some row =>
      bio (cellsAfter r) = orEmpty (row_bio row) /\
      links (cellsAfter r) = orEmpty (row_links row) /\
      (forall u, avatarUrl row = Some u -> u <> [] ->
                 avatar (cellsAfter r) = Some u)
    | None => cellsAfter r = s
    end.
Proof.
  intros r. subst r. unfold loadProfileData. cbn.
  replied. destruct x as [res|e]; cbn.
  - destruct (sel_error res) as [e|] eqn:He; cbn.
    + do 4 eexists. split; [reflexivity|].
      cbn. rewrite He. repeat split.
    + destruct (sel_data res) as [data|] eqn:Hd; cbn.
      * destruct (avatarUrl data) as [[|c0 u]|] eqn:Hu; cbn;
          do 4 eexists; (split; [reflexivity|]);
          cbn; rewrite He, Hd, Hu; repeat split;
          intros u' Hu'; try discriminate; injection Hu' as <-;
          intros Hne; [contradiction Hne|]; reflexivity.
      * do 4 eexists. split; [reflexivity|].
        cbn. rewrite He, Hd. repeat split.
  - do 4 eexists. split; [reflexivity|]. cbn. repeat split.
Qed.

(** A validated submission in which no answer is a failure transforms
    the avatar cell's path twice and issues two uploads. *)
Lemma unfailed_submission_uploads (E : Env) (w : World E) s a :
  session s <> None -> missingField s = false -> avatar s = Some a ->
  existsb answerFailed (trace (submit E w s)) = false ->
  exists m t,
    transforms (trace (submit E w s))
    = [(a, [Resize 800],
        {| compress := (7 # 10)%Q; save_format := JPEG |}, Resolved m);
       (a, [Resize 200],
        {| compress := (5 # 10)%Q; save_format := JPEG |}, Resolved t)] /\
    List.length (uploads (trace (submit E w s))) = 2%nat.
Proof.
  intros Hs Hm Ha. enter s.
  - discriminate.
  - rewrite Ha in Havatar. injection Havatar as <-.
    explore; intros Hok; try discriminate.
    all: do 2 eexists; split; reflexivity.
  - contradiction Hs; reflexivity.
Qed.

(** X15. Saving a loaded profile without picking a new picture sends the
    stored picture through again.  If the profile load produced a row with
    a non-blank bio, non-blank links and a non-empty stored url, then a
    submission on the cells it leaves passes validation and its first
    transformation request is for that stored url, at width 800.  If
    moreover no answer the collaborators give during that submission is a
    failure, both transformations of the stored url resolve and two
    uploads are issued. *)
Theorem loaded_profile_resubmits_stored_url
  (B : Backend) (wb : Store B) (E : Env) (w : World E)
  (s : State) (userId t c i : jsstring) (o : Outcome SelectResult)
  (row : ProfileRow) (u : jsstring) :
  let r := exec B (loadProfileData userId) wb s in
  session s <> None ->
  selects (did r) = [(t, c, i, o)] ->
  rowOf o = Some row ->
  truthy (trim (orEmpty (row_bio row))) = true ->
  truthy (trim (orEmpty (row_links row))) = true ->
  avatarUrl row = Some u ->
  u <> [] ->
  let again := submit E w (cellsAfter r) in
  missingField (cellsAfter r) = false /\
  (exists out rest,
     transforms (trace again)
     = (u, [Resize 800],
        {| compress := (7 # 10)%Q; save_format := JPEG |}, out)
       :: rest) /\
  (existsb answerFailed (trace again) = false ->
   exists main thumb,
     transforms (trace again)
     = [(u, [Resize 800],
         {| compress := (7 # 10)%Q; save_format := JPEG |}, Resolved main);
        (u, [Resize 200],
         {| compress := (5 # 10)%Q; save_format := JPEG |}, Resolved thumb)] /\
     List.length (uploads (trace again)) = 2%nat).
Proof.
  intros r Hs Hsel Hrow Hb Hl Hu Hne again.
  destruct (loadProfileData_cells B wb s userId)
    as [t' [c' [i' [o' [Hsel' [Hsess [_ Hcells]]]]]]].
  fold r in Hsel', Hsess, Hcells.
  rewrite Hsel in Hsel'. injection Hsel' as _ _ _ <-.
  rewrite Hrow in Hcells. destruct Hcells as [Hbio [Hlinks Hav]].
  specialize (Hav u Hu Hne).
  assert (Hm : missingField (cellsAfter r) = false).
  { unfold missingField. rewrite Hbio, Hlinks, Hav, Hb, Hl.
    destruct u; [contradiction Hne; reflexivity | reflexivity]. }
  assert (Hs' : session (cellsAfter r) <> None) by (rewrite Hsess; exact Hs).
  split; [exact Hm|]. split.
  - apply submit_transforms_avatar; assumption.
  - intros Hok. apply unfailed_submission_uploads; assumption.
Qed.

Lemma loaded_profile_resubmits_stored_url_witness :
  let r := exec planned (loadProfileData (lit "u1")) smooth signedIn in
  let u := lit "https://cdn/avatars/u1-1.jpg" in
  let again := submit scripted (allGood 1690000000000 1) (cellsAfter r) in
  session signedIn <> None /\
  selects (did r)
  = [(lit "users", lit "bio, links, avatar", lit "u1", selectAnswer smooth)] /\
  rowOf (selectAnswer smooth) = Some storedRow /\
  existsb answerFailed (trace again) = false /\
  missingField (cellsAfter r) = false /\
  (exists out rest,
     transforms (trace again)
     = (u, [Resize 800],
        {| compress := (7 # 10)%Q; save_format := JPEG |}, out)
       :: rest) /\
  exists main thumb,
    transforms (trace again)
    = [(u, [Resize 800],
        {| compress := (7 # 10)%Q; save_format := JPEG |}, Resolved main);
       (u, [Resize 200],
        {| compress := (5 # 10)%Q; save_format := JPEG |}, Resolved thumb)] /\
    List.length (uploads (trace again)) = 2%nat.
Proof.
  intros r u again.
  assert (Hs : session signedIn <> None) by discriminate.
  assert (Hne : u <> []) by discriminate.
  assert (Hok : existsb answerFailed (trace again) = false) by reflexivity.
  split; [exact Hs|]. split; [reflexivity|]. split; [reflexivity|].
  split; [exact Hok|].
  destruct (@loaded_profile_resubmits_stored_url
              planned smooth scripted (allGood 1690000000000 1) signedIn
              (lit "u1") _ _ _ (selectAnswer smooth) storedRow u
              Hs eq_refl eq_refl eq_refl eq_refl eq_refl Hne)
    as [Hm [Hfirst Hup]].
  split; [exact Hm|]. split; [exact Hfirst|]. exact (Hup Hok).
Defined.

(** X16. A picked picture is the one submitted.  On a screen with a
    session and non-blank bio and links, once the picker has handed over a
    non-empty path, whatever the avatar cell held before, a submission
    passes validation and its first transformation request is for the
    picked path, at width 800. *)
Theorem picked_image_is_submitted
  (B : Backend) (wb : Store B) (E : Env) (w : World E) (s : State)
  (opts : PickerOptions) (o : Outcome PickerResult) (uri : jsstring) :
  let r := exec B handleImagePicker wb s in
  session s <> None ->
  truthy (trim (bio s)) = true ->
  truthy (trim (links s)) = true ->
  launches (did r) = [(opts, o)] ->
  pickedOf o = Some uri ->
  uri <> [] ->
  missingField (cellsAfter r) = false /\
  exists out rest,
    transforms (trace (submit E w (cellsAfter r)))
    = (uri, [Resize 800],
       {| compress := (7 # 10)%Q; save_format := JPEG |}, out)
      :: rest.
Proof.
  intros r Hs Hb Hl Hlaunch Hpick Hne.
  assert (Hcells : cellsAfter r = setAvatar uri s).
  { revert Hlaunch. subst r. unfold handleImagePicker. cbn.
    replied. intros Hlaunch. injection Hlaunch as _ <-.
    destruct x as [res|e]; cbn in *; [|discriminate].
    destruct (canceled res); [discriminate|]. cbn.
    destruct (assets res) as [[|first rest]|]; try discriminate.
    injection Hpick as <-. cbn. reflexivity. }
  assert (Hm : missingField (cellsAfter r) = false).
  { rewrite Hcells. unfold missingField.
    cbn [setAvatar bio links avatar truthyOpt]. rewrite Hb, Hl.
    destruct uri; [contradiction Hne; reflexivity | reflexivity]. }
  split; [exact Hm|].
  apply submit_transforms_avatar;
    [rewrite Hcells; exact Hs | exact Hm | rewrite Hcells; reflexivity].
Qed.

Lemma picked_image_is_submitted_witness :
  let r := exec planned handleImagePicker smooth filled in
  let uri := lit "file:///new.png" in
  session filled <> None /\
  pickedOf (pickerAnswer smooth) = Some uri /\
  avatar filled = Some (lit "file:///pick.png") /\
  missingField (cellsAfter r) = false /\
  exists out rest,
    transforms (trace (submit scripted (allGood 1690000000000 1)
                         (cellsAfter r)))
    = (uri, [Resize 800],
       {| compress := (7 # 10)%Q; save_format := JPEG |}, out)
      :: rest.
Proof.
  intros r uri.
  assert (Hs : session filled <> None) by discriminate.
  assert (Hne : uri <> []) by discriminate.
  split; [exact Hs|]. split; [reflexivity|]. split; [reflexivity|].
  exact (@picked_image_is_submitted
           planned smooth scripted (allGood 1690000000000 1) filled
           _ (pickerAnswer smooth) uri
           Hs eq_refl eq_refl eq_refl eq_refl Hne).
Defined.

(** Split on what an answer to an entry operation holds. *)
Ltac branch :=
  match goal with
  | |- context [match ?x with Resolved _ => _ | Rejected _ => _ end] =>
    is_var x; destruct x; cbn
  | |- context [match gs_error ?r with _ => _ end] =>
    destruct (gs_error r) eqn:?; cbn
  | |- context [match gs_session ?r with _ => _ end] =>
    destruct (gs_session r) eqn:?; cbn
  | |- context [match sel_error ?r with _ => _ end] =>
    destruct (sel_error r) eqn:?; cbn
  | |- context [match sel_data ?r with _ => _ end] =>
    destruct (sel_data r) eqn:?; cbn
  | |- context [if truthyOpt (avatarUrl ?d) then _ else _] =>
    destruct (avatarUrl d) as [[|? ?]|] eqn:?; cbn
  end.

Ltac drive := repeat first [replied | branch].

(** X17. On a freshly mounted screen, after [checkSession] the form is on
    screen exactly when the session read produced a session: it then shows
    an enabled button and no error banner, whether or not the profile
    could be loaded; otherwise nothing is rendered and the user is
    redirected to [/auth]. *)
Theorem form_appears_iff_session (B : Backend) (w : Store B) :
  let r := exec B checkSession w initialState in
  exists o,
    sessionReads (did r) = [o] /\
    match sessionOf o with
    | Some sess =>
      exists v,
        render (cellsAfter r) = Some v /\
        buttonDisabled v = false /\
        errorBanner v = None
    | None =>
      render (cellsAfter r) = None /\ redirects (did r) = [lit "/auth"]
    end.
Proof.
  intros r. subst r. unfold checkSession, loadProfileData. cbn.
  drive.
  all: eexists; (split; [reflexivity|]); cbn.
  all: repeat match goal with
       | H : gs_error _ = _ |- _ => rewrite H
       | H : gs_session _ = _ |- _ => rewrite H
       end.
  all: first [ split; reflexivity
             | eexists; repeat split ].
Qed.

(** * The sign-in screen *)

Module AuthFacts.

Import Auth.

Lemma nullable_iff r : nullable r = true <-> Matches r [].
Proof.
  induction r as [| |f|r1 IH1 r2 IH2|r1 IH1 r2 IH2|r IH]; cbn.
  - split; [discriminate | intros H; inversion H].
  - split; [intros _; constructor | reflexivity].
  - split; [discriminate | intros H; inversion H].
  - rewrite andb_true_iff, IH1, IH2. split.
    + intros [H1 H2]. exact (MatchesThen H1 H2).
    + intros H. inversion H as [| |? ? s1 s2 H1 H2| | | |]; subst.
      match goal with
      | Heq : _ ++ _ = [] |- _ =>
        apply app_eq_nil in Heq; destruct Heq as [-> ->]
      end.
      split; assumption.
  - rewrite orb_true_iff, IH1, IH2. split.
    + intros [H|H]; [apply MatchesOrL | apply MatchesOrR]; exact H.
    + intros H. inversion H; subst; [left | right]; assumption.
  - split; [intros _; constructor | reflexivity].
Qed.

(** A non-empty word of a starred pattern starts with a non-empty word of
    the pattern. *)
Lemma star_cons r c s :
  Matches (Star r) (c :: s) ->
  exists s1 s2, s = s1 ++ s2 /\ Matches r (c :: s1) /\ Matches (Star r) s2.
Proof.
  intros H. remember (Star r) as r' eqn:Hr. remember (c :: s) as t eqn:Ht.
  revert c s Ht.
  induction H as [| | | | | |r0 s1 s2 H1 _ H2 IH2]; try discriminate;
    intros c s Ht.
  injection Hr as ->.
  destruct s1 as [|c1 s1]; cbn in Ht.
  - exact (IH2 eq_refl c s Ht).
  - injection Ht as -> <-. exists s1, s2. repeat split; assumption.
Qed.

Lemma derive_iff c r s : Matches (derive c r) s <-> Matches r (c :: s).
Proof.
  revert s.
  induction r as [| |f|r1 IH1 r2 IH2|r1 IH1 r2 IH2|r IH]; intros s; cbn.
  - split; intros H; inversion H.
  - split; intros H; inversion H.
  - destruct (f c) eqn:Hf; split; intros H; inversion H; subst.
    + constructor. exact Hf.
    + constructor.
    + congruence.
  - assert (Hhead : Matches (Then (derive c r1) r2) s <->
                    exists s1 s2, s = s1 ++ s2 /\ Matches r1 (c :: s1)
                                  /\ Matches r2 s2).
    { split.
      - intros H. inversion H as [| |? ? s1 s2 H1 H2| | | |]; subst.
        exists s1, s2. rewrite <- IH1. repeat split; assumption.
      - intros [s1 [s2 [-> [H1 H2]]]]. constructor; [|exact H2].
        rewrite IH1. exact H1. }
    assert (Hsplit : Matches (Then r1 r2) (c :: s) <->
                     (exists s1 s2, s = s1 ++ s2 /\ Matches r1 (c :: s1)
                                    /\ Matches r2 s2) \/
                     (Matches r1 [] /\ Matches r2 (c :: s))).
    { split.
      - intros H. inversion H as [| |? ? s1 s2 H1 H2| | | |]; subst.
        match goal with Heq : _ ++ _ = _ :: _ |- _ => rename Heq into Hcut end.
        destruct s1 as [|c1 s1]; cbn in Hcut.
        + right. subst. split; assumption.
        + injection Hcut as -> <-. left. exists s1, s2.
          repeat split; assumption.
      - intros [[s1 [s2 [-> [H1 H2]]]] | [H1 H2]].
        + exact (MatchesThen H1 H2).
        + exact (MatchesThen H1 H2). }
    rewrite Hsplit. destruct (nullable r1) eqn:Hn.
    + split.
      * intros H. inversion H; subst.
        -- left. apply Hhead. assumption.
        -- right. split; [apply nullable_iff; exact Hn | apply IH2; assumption].
      * intros [H | [_ H2]].
        -- apply MatchesOrL, Hhead, H.
        -- apply MatchesOrR, IH2, H2.
    + rewrite Hhead. split; [intros H; left; exact H|].
      intros [H | [H1 _]]; [exact H|].
      apply nullable_iff in H1. congruence.
  - split; intros H; inversion H; subst.
    + apply MatchesOrL, IH1. assumption.
    + apply MatchesOrR, IH2. assumption.
    + apply MatchesOrL, IH1. assumption.
    + apply MatchesOrR, IH2. assumption.
  - split.
    + intros H. inversion H as [| |? ? s1 s2 H1 H2| | | |]; subst.
      apply IH in H1. exact (MatchesStarApp H1 H2).
    + intros H. apply star_cons in H.
      destruct H as [s1 [s2 [-> [H1 H2]]]].
      constructor; [apply IH; exact H1 | exact H2].
Qed.

(** The derivative test decides the language. *)
Lemma test_iff r s : test r s = true <-> Matches r s.
Proof.
  revert r. induction s as [|c s IH]; intros r; cbn.
  - apply nullable_iff.
  - rewrite IH. apply derive_iff.
Qed.

Lemma star_unit f s : Matches (Star (Unit f)) s <-> forallb f s = true.
Proof.
  split.
  - intros H. remember (Star (Unit f)) as r eqn:Hr.
    induction H as [| | | | | |r0 s1 s2 H1 _ H2 IH2]; try discriminate.
    + reflexivity.
    + injection Hr as ->. inversion H1; subst. cbn.
      rewrite andb_true_iff. split; [assumption | apply IH2; reflexivity].
  - induction s as [|c s IH]; cbn; intros H.
    + constructor.
    + apply andb_true_iff in H. destruct H as [Hc Hs].
      exact (MatchesStarApp (MatchesUnit f c Hc) (IH Hs)).
Qed.

Lemma plus_unit f s :
  Matches (plus (Unit f)) s <-> s <> [] /\ forallb f s = true.
Proof.
  unfold plus. split.
  - intros H. inversion H as [| |? ? s1 s2 H1 H2| | | |]; subst.
    inversion H1; subst. cbn. split; [discriminate|].
    rewrite andb_true_iff. split; [assumption | apply star_unit; exact H2].
  - intros [Hne H]. destruct s as [|c s]; [contradiction Hne; reflexivity|].
    cbn in H. apply andb_true_iff in H. destruct H as [Hc Hs].
    exact (MatchesThen (MatchesUnit f c Hc) (proj2 (star_unit f s) Hs)).
Qed.

Lemma unit_then f r s :
  Matches (Then (Unit f) r) s <->
  exists c s', s = c :: s' /\ f c = true /\ Matches r s'.
Proof.
  split.
  - intros H. inversion H as [| |? ? s1 s2 H1 H2| | | |]; subst.
    inversion H1; subst. exists c, s2. repeat split; assumption.
  - intros [c [s' [-> [Hc Hr]]]].
    exact (MatchesThen (MatchesUnit f c Hc) Hr).
Qed.

Lemma then_iff r1 r2 s :
  Matches (Then r1 r2) s <->
  exists s1 s2, s = s1 ++ s2 /\ Matches r1 s1 /\ Matches r2 s2.
Proof.
  split.
  - intros H. inversion H as [| |? ? s1 s2 H1 H2| | | |]; subst.
    exists s1, s2. repeat split; assumption.
  - intros [s1 [s2 [-> [H1 H2]]]]. constructor; assumption.
Qed.


Lemma emailRegex_language s :
  Matches emailRegex s <->
  exists name host tld,
    s = name ++ [64%N] ++ host ++ [46%N] ++ tld /\
    name <> [] /\ host <> [] /\ tld <> [] /\
    forallb notSpaceNorAt name = true /\
    forallb notSpaceNorAt host = true /\
    forallb notSpaceNorAt tld = true.
Proof.
  unfold emailRegex. split.
  - intros H.
    apply then_iff in H. destruct H as [name [rest [-> [Hname H]]]].
    apply unit_then in H. destruct H as [c [rest' [-> [Hc H]]]].
    apply N.eqb_eq in Hc. subst c.
    apply then_iff in H. destruct H as [host [rest [-> [Hhost H]]]].
    apply unit_then in H. destruct H as [c [tld [-> [Hc Htld]]]].
    apply N.eqb_eq in Hc. subst c.
    apply plus_unit in Hname, Hhost, Htld.
    exists name, host, tld. cbn. tauto.
  - intros [name [host [tld [-> [Hn [Hh [Ht [Fn [Fh Ft]]]]]]]]].
    apply then_iff. exists name, ([64%N] ++ host ++ [46%N] ++ tld).
    split; [reflexivity|]. split; [apply plus_unit; tauto|].
    apply unit_then. exists 64%N, (host ++ [46%N] ++ tld).
    split; [reflexivity|]. split; [reflexivity|].
    apply then_iff. exists host, ([46%N] ++ tld).
    split; [reflexivity|]. split; [apply plus_unit; tauto|].
    apply unit_then. exists 46%N, tld.
    split; [reflexivity|]. split; [reflexivity|].
    apply plus_unit; tauto.
Qed.

Lemma accepted_email_parts email :
  validateEmail email = true ->
  exists name host tld,
    email = name ++ [64%N] ++ host ++ [46%N] ++ tld /\
    name <> [] /\ host <> [] /\ tld <> [] /\
    forallb notSpaceNorAt name = true /\
    forallb notSpaceNorAt host = true /\
    forallb notSpaceNorAt tld = true.
Proof.
  unfold validateEmail. rewrite test_iff. apply emailRegex_language.
Qed.

(** X18. [validateEmail] accepts exactly the strings of the shape
    [name@host.tld] in which the three parts are non-empty and hold no
    white space and no at sign; [host] and [tld] may hold further dots. *)
Theorem validateEmail_iff (email : jsstring) :
  validateEmail email = true <->
  exists name host tld,
    email = name ++ [64%N] ++ host ++ [46%N] ++ tld /\
    name <> [] /\ host <> [] /\ tld <> [] /\
    forallb notSpaceNorAt name = true /\
    forallb notSpaceNorAt host = true /\
    forallb notSpaceNorAt tld = true.
Proof.
  unfold validateEmail. rewrite test_iff. apply emailRegex_language.
Qed.

Lemma notSpaceNorAt_elim c :
  notSpaceNorAt c = true -> isWhiteSpace c = false /\ c <> 64%N.
Proof.
  unfold notSpaceNorAt. intros H. apply negb_true_iff in H.
  apply orb_false_elim in H. destruct H as [Hw Ha].
  split; [exact Hw | apply N.eqb_neq; exact Ha].
Qed.

Lemma class_counts l :
  forallb notSpaceNorAt l = true ->
  count_occ N.eq_dec l 64%N = 0%nat /\ existsb isWhiteSpace l = false.
Proof.
  induction l as [|c l IH]; cbn; intros H; [split; reflexivity|].
  apply andb_true_iff in H. destruct H as [Hc Hl].
  apply notSpaceNorAt_elim in Hc. destruct Hc as [Hw Ha].
  destruct (IH Hl) as [Hcount Hex]. rewrite Hw, Hex.
  destruct (N.eq_dec c 64) as [Heq|_]; [contradiction|].
  split; [exact Hcount | reflexivity].
Qed.

(** X19. An address [validateEmail] accepts holds exactly one at sign and
    no white space anywhere (it is not trimmed first, so a trailing space
    is enough to refuse it), and is at least five code units long. *)
Theorem accepted_email_shape (email : jsstring) :
  validateEmail email = true ->
  count_occ N.eq_dec email 64%N = 1%nat /\
  existsb isWhiteSpace email = false /\
  (5 <= List.length email)%nat.
Proof.
  intros H. apply accepted_email_parts in H.
  destruct H as [name [host [tld [-> [Hn [Hh [Ht [Fn [Fh Ft]]]]]]]]].
  destruct (class_counts name Fn) as [Cn Wn].
  destruct (class_counts host Fh) as [Ch Wh].
  destruct (class_counts tld Ft) as [Ct Wt].
  repeat split.
  - rewrite !count_occ_app, Cn, Ch, Ct. reflexivity.
  - rewrite !existsb_app, Wn, Wh, Wt. reflexivity.
  - rewrite !length_app. cbn.
    destruct name; [contradiction Hn; reflexivity|].
    destruct host; [contradiction Hh; reflexivity|].
    destruct tld; [contradiction Ht; reflexivity|].
    cbn. lia.
Qed.

Lemma accepted_email_shape_witness :
  validateEmail (lit "a@b.c") = true /\
  count_occ N.eq_dec (lit "a@b.c") 64%N = 1%nat /\
  existsb isWhiteSpace (lit "a@b.c") = false /\
  (5 <= List.length (lit "a@b.c"))%nat.
Proof.
  assert (H : validateEmail (lit "a@b.c") = true) by reflexivity.
  split; [exact H|].
  exact (accepted_email_shape (lit "a@b.c") H).
Defined.

(** Split on what an answer to an auth operation holds. *)
Ltac authBranch :=
  match goal with
  | |- context [match ?x with Resolved _ => _ | Rejected _ => _ end] =>
    is_var x; destruct x; cbn
  | |- context [match su_error ?r with _ => _ end] =>
    destruct (su_error r) eqn:?; cbn
  | |- context [match si_error ?r with _ => _ end] =>
    destruct (si_error r) eqn:?; cbn
  | |- context [match si_session ?r with _ => _ end] =>
    destruct (si_session r) eqn:?; cbn
  end.

Ltac authDrive := repeat first [replied | authBranch].

(** X20. No credentials leave the device unchecked.  [handleAuth] never
    throws, always ends with the loading flag reset, and leaves email,
    password and mode as they were.  If it calls the auth client at all,
    then email and password were non-empty, the email passed
    [validateEmail] and the password has at least six code units; the
    call is the only one, it is a sign-up exactly in sign-up mode, it
    carries email and password as typed, and a sign-up carries the two
    clock texts read just before, in order. *)
Theorem handleAuth_validates_first
  (B : Backend) (w : Store B) (hasCallback : bool) (s : AuthState) :
  let r := exec B (handleAuth hasCallback s) w s in
  ended r = Returned tt /\
  loading (cellsAfter r) = false /\
  email (cellsAfter r) = email s /\
  password (cellsAfter r) = password s /\
  mode (cellsAfter r) = mode s /\
  (authCalls (did r) <> [] ->
   email s <> [] /\ password s <> [] /\
   validateEmail (email s) = true /\
   (6 <= List.length (password s))%nat /\
   match mode s with
   | signup =>
     exists created updated,
       clockTexts (did r) = [created; updated] /\
       authCalls (did r)
       = [CalledSignUp (email s) (password s) created updated]
   | signin =>
     clockTexts (did r) = [] /\
     authCalls (did r) = [CalledSignIn (email s) (password s)]
   end).
Proof.
  intros r. subst r. unfold exec, handleAuth.
  destruct (truthy (email s)) eqn:He;
    [destruct (truthy (password s)) eqn:Hp;
     [destruct (validateEmail (email s)) eqn:Hv;
      [destruct (validatePassword (password s)) eqn:Hl|]|]|].
  2-5: unfold reject; cbn; repeat replied; units; repeat split; congruence.
  unfold authenticate. cbn.
  assert (Hfacts : email s <> [] /\ password s <> [] /\
                   (6 <= List.length (password s))%nat).
  { repeat split.
    - intros Heq. rewrite Heq in He. discriminate.
    - intros Heq. rewrite Heq in Hp. discriminate.
    - apply Nat.leb_le. exact Hl. }
  destruct Hfacts as [F1 [F2 F3]].
  destruct (mode s) eqn:Hm; destruct hasCallback; cbn.
  all: authDrive; units.
  all: repeat split; try assumption.
  all: try (do 2 eexists; split; reflexivity).
Qed.

Lemma handleAuth_validates_first_witness :
  let s := typed "a@b.c" "secret" signup in
  let r := exec planned (handleAuth true s) welcoming s in
  authCalls (did r) <> [] /\
  email s <> [] /\ password s <> [] /\
  validateEmail (email s) = true /\
  (6 <= List.length (password s))%nat /\
  exists created updated,
    clockTexts (did r) = [created; updated] /\
    authCalls (did r)
    = [CalledSignUp (email s) (password s) created updated].
Proof.
  intros s r.
  assert (H : authCalls (did r) <> []) by (vm_compute; discriminate).
  split; [exact H|].
  exact (proj2 (proj2 (proj2 (proj2 (proj2
           (handleAuth_validates_first planned welcoming true s))))) H).
Defined.

(** X21. How a validated sign-in or sign-up ends.  With all four checks
    passed there is exactly one auth call.  If it fails, by rejection or
    by a reported error, the success callback is not invoked and the one
    message shown is the error's text.  If it succeeds, the callback is
    invoked once when the prop is given; nothing is shown, unless the
    callback itself throws, in which case its error's text is shown like
    an auth error. *)
Theorem handleAuth_reports_or_succeeds
  (B : Backend) (w : Store B) (hasCallback : bool) (s : AuthState) :
  truthy (email s) = true ->
  truthy (password s) = true ->
  validateEmail (email s) = true ->
  validatePassword (password s) = true ->
  let r := exec B (handleAuth hasCallback s) w s in
  exists failure,
    authFailures (did r) = [failure] /\
    match failure with
    | Some e =>
      successCallbacks (did r) = [] /\
      shown (did r) = [errorText e] /\
      error (cellsAfter r) = Some (errorText e)
    | None =>
      if hasCallback then
        exists o,
          successCallbacks (did r) = [o] /\
          match o with
          | Resolved _ =>
            shown (did r) = [] /\ error (cellsAfter r) = None
          | Rejected e =>
            shown (did r) = [errorText e] /\
            error (cellsAfter r) = Some (errorText e)
          end
      else
        successCallbacks (did r) = [] /\
        shown (did r) = [] /\ error (cellsAfter r) = None
    end.
Proof.
  intros He Hp Hv Hl r. subst r.
  unfold exec, handleAuth, authenticate. rewrite He, Hp, Hv, Hl. cbn.
  destruct (mode s); destruct hasCallback; cbn.
  all: authDrive.
  all: eexists; (split; [reflexivity|]); cbn.
  all: repeat match goal with
       | H : su_error _ = _ |- _ => rewrite H
       | H : si_error _ = _ |- _ => rewrite H
       end.
  all: first [ repeat split; reflexivity
             | eexists; split; [reflexivity|]; split; reflexivity ].
Qed.

Lemma handleAuth_reports_or_succeeds_witness :
  let s := typed "a@b.c" "secret" signin in
  let r := exec planned (handleAuth true s) welcoming s in
  exists failure,
    authFailures (did r) = [failure] /\
    match failure with
    | Some e =>
      successCallbacks (did r) = [] /\
      shown (did r) = [errorText e] /\
      error (cellsAfter r) = Some (errorText e)
    | None =>
      exists o,
        successCallbacks (did r) = [o] /\
        match o with
        | Resolved _ =>
          shown (did r) = [] /\ error (cellsAfter r) = None
        | Rejected e =>
          shown (did r) = [errorText e] /\
          error (cellsAfter r) = Some (errorText e)
        end
    end.
Proof.
  intros s r.
  exact (handleAuth_reports_or_succeeds planned welcoming true s
           eq_refl eq_refl eq_refl eq_refl).
Defined.

End AuthFacts.
